(** * The plugin-selecting agent of [main.py]: parser, prompt template,
      tool selection, executor loop and submission form.

    Python strings are sequences of Unicode code points; they are embedded
    as [list N].  Dictionaries are [gmap]s, exceptions are values of
    [exn] carried by the [result] monad.

    The file has three parts: the program, function by function; the
    vocabulary in which its properties are stated; the properties. *)

From stdpp Require Import base option list strings gmap sorting.
From Stdlib Require Import NArith Lia.

Local Open Scope N_scope.

(** * Part I: the program *)

(** ** Code points and string literals *)

Abbreviation str := (list N).

(** An ASCII literal of the source, as its sequence of code points. *)
Fixpoint py (s : string) : str :=
  match s with
  | EmptyString => []
  | String a s' => Ascii.N_of_ascii a :: py s'
  end.

Definition NL : N := 10.
Definition DQUOTE : N := 34.
Definition COLON : N := 58.

(** ** Character classes of CPython (str.isspace, str.isdecimal) *)

Definition in_range (c : N) (r : N * N) : bool := (r.1 <=? c) && (c <=? r.2).

Definition in_ranges (rs : list (N * N)) (c : N) : bool := existsb (in_range c) rs.

(** [Py_UNICODE_ISSPACE]: used by [str.strip()] and by [\s] in a str pattern. *)
Definition whitespace_ranges : list (N * N) :=
  [ (0x9, 0xd); (0x1c, 0x1f); (0x20, 0x20); (0x85, 0x85); (0xa0, 0xa0);
    (0x1680, 0x1680); (0x2000, 0x200a); (0x2028, 0x2029); (0x202f, 0x202f);
    (0x205f, 0x205f); (0x3000, 0x3000) ].

Definition isspace : N -> bool := in_ranges whitespace_ranges.

(** [Py_UNICODE_ISDECIMAL]: used by [\d] in a str pattern (general category
    Nd, Unicode 14.0 as shipped with CPython 3.11). *)
Definition decimal_ranges : list (N * N) :=
  [ (0x30, 0x39); (0x660, 0x669); (0x6f0, 0x6f9); (0x7c0, 0x7c9);
    (0x966, 0x96f); (0x9e6, 0x9ef); (0xa66, 0xa6f); (0xae6, 0xaef);
    (0xb66, 0xb6f); (0xbe6, 0xbef); (0xc66, 0xc6f); (0xce6, 0xcef);
    (0xd66, 0xd6f); (0xde6, 0xdef); (0xe50, 0xe59); (0xed0, 0xed9);
    (0xf20, 0xf29); (0x1040, 0x1049); (0x1090, 0x1099); (0x17e0, 0x17e9);
    (0x1810, 0x1819); (0x1946, 0x194f); (0x19d0, 0x19d9); (0x1a80, 0x1a89);
    (0x1a90, 0x1a99); (0x1b50, 0x1b59); (0x1bb0, 0x1bb9); (0x1c40, 0x1c49);
    (0x1c50, 0x1c59); (0xa620, 0xa629); (0xa8d0, 0xa8d9); (0xa900, 0xa909);
    (0xa9d0, 0xa9d9); (0xa9f0, 0xa9f9); (0xaa50, 0xaa59); (0xabf0, 0xabf9);
    (0xff10, 0xff19); (0x104a0, 0x104a9); (0x10d30, 0x10d39);
    (0x11066, 0x1106f); (0x110f0, 0x110f9); (0x11136, 0x1113f);
    (0x111d0, 0x111d9); (0x112f0, 0x112f9); (0x11450, 0x11459);
    (0x114d0, 0x114d9); (0x11650, 0x11659); (0x116c0, 0x116c9);
    (0x11730, 0x11739); (0x118e0, 0x118e9); (0x11950, 0x11959);
    (0x11c50, 0x11c59); (0x11d50, 0x11d59); (0x11da0, 0x11da9);
    (0x16a60, 0x16a69); (0x16ac0, 0x16ac9); (0x16b50, 0x16b59);
    (0x1d7ce, 0x1d7ff); (0x1e140, 0x1e149); (0x1e2f0, 0x1e2f9);
    (0x1e950, 0x1e959); (0x1fbf0, 0x1fbf9) ].

Definition isdecimal : N -> bool := in_ranges decimal_ranges.

(** ** Exceptions and the result monad *)

Inductive exn :=
| ValueError (msg : str)
| KeyError (key : str)
| IndexError
| AttributeError
| UnknownToolError (tool_name : str)
| ServiceError (msg : str).

Inductive result (A : Type) :=
| Return (a : A)
| Raise (e : exn).
Arguments Return {A} a.
Arguments Raise {A} e.

#[global] Instance result_ret : MRet result := @Return.
#[global] Instance result_bind : MBind result := fun A B f m =>
  match m with
  | Return a => f a
  | Raise e => Raise e
  end.

(** ** Built-in string operations *)

(** [s.startswith(p)] *)
Fixpoint startswith (p s : str) : bool :=
  match p, s with
  | [], _ => true
  | a :: p', b :: s' => (a =? b) && startswith p' s'
  | _ :: _, [] => false
  end.

(** [sub in s] *)
Fixpoint contains (sub s : str) : bool :=
  startswith sub s ||
  match s with
  | [] => false
  | _ :: s' => contains sub s'
  end.

(** [s.find(sub)], [None] standing for -1 *)
Fixpoint find (sub s : str) : option nat :=
  if startswith sub s then Some 0%nat
  else match s with
       | [] => None
       | _ :: s' => S <$> find sub s'
       end.

(** The loop of [s.split(sep)] for a non-empty [sep]: find the next
    occurrence, emit the piece before it, resume after it.  [n] bounds the
    number of pieces still to be cut. *)
Fixpoint split_loop (n : nat) (sep s : str) : list str :=
  match n, find sep s with
  | S n', Some i => take i s :: split_loop n' sep (drop (i + length sep)%nat s)
  | _, _ => [s]
  end.

(** [s.split(sep)]; an empty separator is a [ValueError]. *)
Definition split (sep s : str) : result (list str) :=
  match sep with
  | [] => Raise (ValueError (py "empty separator"))
  | _ => Return (split_loop (length s) sep s)
  end.

(** [l[-1]] *)
Definition last_item {A} (l : list A) : result A :=
  match last l with
  | Some x => Return x
  | None => Raise IndexError
  end.

Fixpoint lstrip_by (p : N -> bool) (s : str) : str :=
  match s with
  | c :: s' => if p c then lstrip_by p s' else s
  | [] => []
  end.

Definition rstrip_by (p : N -> bool) (s : str) : str :=
  reverse (lstrip_by p (reverse s)).

Definition strip_by (p : N -> bool) (s : str) : str :=
  lstrip_by p (rstrip_by p s).

(** [s.strip()] *)
Definition strip : str -> str := strip_by isspace.

(** [s.strip(chars)] *)
Definition strip_chars (chars : str) : str -> str :=
  strip_by (fun c => existsb (N.eqb c) chars).

(** ** A backtracking matcher for [re] patterns

    Only the constructs of the parser's pattern are covered: literals,
    greedy and lazy repetition of a single-character item, concatenation
    and capturing groups.  [exec r st] lists, in the order the backtracking
    engine tries them, every state in which a match of [r] from [st] can
    end; the engine's answer is the first one. *)

Inductive regex :=
| Eps
| Lit (c : N)
| Star (greedy : bool) (item : N -> bool)
| Seq (r1 r2 : regex)
| Group (n : nat) (r : regex).

Record mstate := MState { rest : str; groups : gmap nat str }.

(** Ways to leave [item*]: longest run first. *)
Fixpoint star_max (item : N -> bool) (s : str) : list str :=
  match s with
  | c :: s' => if item c then star_max item s' ++ [s] else [s]
  | [] => [[]]
  end.

(** Ways to leave [item*?]: shortest run first. *)
Fixpoint star_min (item : N -> bool) (s : str) : list str :=
  s :: match s with
       | c :: s' => if item c then star_min item s' else []
       | [] => []
       end.

Fixpoint exec (r : regex) (st : mstate) : list mstate :=
  match r with
  | Eps => [st]
  | Lit c =>
      match rest st with
      | x :: s' => if x =? c then [MState s' (groups st)] else []
      | [] => []
      end
  | Star greedy item =>
      (fun s' => MState s' (groups st)) <$>
        (if greedy then star_max item (rest st) else star_min item (rest st))
  | Seq r1 r2 => st' ← exec r1 st; exec r2 st'
  | Group n r =>
      (fun st' =>
         MState (rest st')
           (<[n := take (length (rest st) - length (rest st')) (rest st)]> (groups st')))
        <$> exec r st
  end.

(** The literal string [s] as a pattern. *)
Fixpoint lit (s : str) : regex :=
  match s with
  | [] => Eps
  | c :: s' => Seq (Lit c) (lit s')
  end.

(** Concatenation of a sequence of patterns. *)
Fixpoint cat (rs : list regex) : regex :=
  match rs with
  | [] => Eps
  | r :: rs' => Seq r (cat rs')
  end.

(** [re.match]: a match anchored at the start of [s]. *)
Definition match_here (r : regex) (s : str) : option mstate :=
  head (exec r (MState s ∅)).

(** [re.search]: the match at the leftmost position that has one. *)
Fixpoint search (r : regex) (s : str) : option mstate :=
  match match_here r s with
  | Some m => Some m
  | None =>
      match s with
      | [] => None
      | _ :: s' => search r s'
      end
  end.

(** [m.group(n)]; [None] when group [n] took no part in the match. *)
Definition group (m : mstate) (n : nat) : option str := groups m !! n.

(** ** Agent values *)

Record AgentAction := mkAction { tool : str; tool_input : str; log : str }.

Record AgentFinish := mkFinish { return_values : gmap str str; finish_log : str }.

Inductive agent_step :=
| Action (a : AgentAction)
| Finish (f : AgentFinish).

(** ** The output parser *)

Module CustomOutputParser.

(** [\s], [\d] and, under [re.DOTALL], [.] *)
Definition any_all (c : N) : bool := true.
Definition ws : regex := Star true isspace.
Definition ds : regex := Star true isdecimal.

(** The action marker, "Action\s*\d*\s*:" *)
Definition ACTION_MARK : regex :=
  cat [lit (py "Action"); ws; ds; ws; Lit COLON].

(** The input marker, "\nAction\s*\d*\s*Input\s*\d*\s*:" *)
Definition INPUT_MARK : regex :=
  cat [Lit NL; lit (py "Action"); ws; ds; ws; lit (py "Input"); ws; ds; ws; Lit COLON].

(** The whole pattern: the action marker, group 1 (lazy, any characters),
    the input marker, a run of whitespace, group 2 (greedy, any
    characters). *)
Definition regex : regex :=
  cat [ACTION_MARK; Group 1 (Star false any_all); INPUT_MARK;
       Star true isspace; Group 2 (Star true any_all)].

Definition parse (llm_output : str) : result agent_step :=
  if contains (py "Final Answer:") llm_output then
    pieces ← split (py "Final Answer:") llm_output;
    piece ← last_item pieces;
    Return (Finish (mkFinish {[ py "output" := strip piece ]} llm_output))
  else
    match search regex llm_output with
    | None =>
        Raise (ValueError (py "Could not parse LLM output: `" ++ llm_output ++ py "`"))
    | Some m =>
        match group m 1, group m 2 with
        | Some g1, Some g2 =>
            let action := strip g1 in
            let action_input := g2 in
            Return (Action (mkAction action
                              (strip_chars [DQUOTE] (strip_chars (py " ") action_input))
                              llm_output))
        | _, _ => Raise AttributeError
        end
    end.

End CustomOutputParser.

(** ** Tools and the prompt template *)

Record Tool := mkTool { name : str; description : str }.

(** [d[k]] *)
Definition getitem {V} (d : gmap str V) (k : str) : result V :=
  match d !! k with
  | Some v => Return v
  | None => Raise (KeyError k)
  end.

(** [sep.join(l)] *)
Fixpoint join (sep : str) (l : list str) : str :=
  match l with
  | [] => []
  | [x] => x
  | x :: l' => x ++ sep ++ join sep l'
  end.

Definition LBRACE : N := 123.
Definition RBRACE : N := 125.

(** [str.format] called with keyword arguments only, for a format string
    whose replacement fields are plain keyword names.  Doubled braces are
    literal braces; a field is replaced by the value bound to its name, which
    is not scanned again.  Conversions, format specifications, attribute and
    index lookups do not occur in the template and are reported as errors.
    [field] holds the name read so far while the scan is inside a field. *)
Fixpoint format_scan (kwargs : gmap str str) (field : option str) (t : str) : result str :=
  match t with
  | [] =>
      match field with
      | None => Return []
      | Some _ => Raise (ValueError (py "expected '}' before end of string"))
      end
  | c :: t' =>
      match field with
      | Some key =>
          if c =? RBRACE then
            match key with
            | [] => Raise IndexError
            | _ => v ← getitem kwargs key; out ← format_scan kwargs None t'; Return (v ++ out)
            end
          else if existsb (N.eqb c) (py "{!:.[]") then
            Raise (ValueError (py "unsupported replacement field"))
          else format_scan kwargs (Some (key ++ [c])) t'
      | None =>
          if c =? LBRACE then
            match t' with
            | c' :: t'' =>
                if c' =? LBRACE
                then out ← format_scan kwargs None t''; Return (LBRACE :: out)
                else format_scan kwargs (Some []) t'
            | [] => Raise (ValueError (py "Single '{' encountered in format string"))
            end
          else if c =? RBRACE then
            match t' with
            | c' :: t'' =>
                if c' =? RBRACE
                then out ← format_scan kwargs None t''; Return (RBRACE :: out)
                else Raise (ValueError (py "Single '}' encountered in format string"))
            | [] => Raise (ValueError (py "Single '}' encountered in format string"))
            end
          else out ← format_scan kwargs None t'; Return (c :: out)
      end
  end.

Definition str_format (t : str) (kwargs : gmap str str) : result str :=
  format_scan kwargs None t.

(** The base template of [generate_response], line by line. *)
Definition template : str :=
  join [NL]
    [ py "Answer the following questions as best you can, speaking casual American English. You have access to the following tools:";
      [];
      py "    {tools}";
      [];
      py "    Use the following format:";
      [];
      py "    Question: the input question you must answer";
      py "    Thought: you should always think about what to do";
      py "    Action: the action to take, should be one of [{tool_names}]";
      py "    Action Input: the input to the action";
      py "    Observation: the result of the action";
      py "    ... (this Thought/Action/Action Input/Observation can repeat N times)";
      py "    Thought: I now know the final answer";
      py "    Final Answer: the final answer to the original input question";
      [];
      py "    Begin! Remember to speak casual American English when giving your final answer.";
      [];
      py "    Question: {input}";
      py "    {agent_scratchpad}" ].

(** A transcript: the (action, observation) pairs of the run so far. *)
Abbreviation transcript := (list (AgentAction * str)).

Module CustomPromptTemplate.
Section Format.

(** The [tools_getter] field of the template object. *)
Variable tools_getter : str -> result (list Tool).

(** One turn of the loop that builds [thoughts]. *)
Definition add_thought (thoughts : str) (step : AgentAction * str) : str :=
  (thoughts ++ log step.1) ++ ([NL] ++ py "Observation: " ++ step.2 ++ [NL] ++ py "Thought: ").

(** The body of [format] up to its last line: the keyword arguments as
    they stand when [self.template.format] is called.  The caller binds
    [input] and [intermediate_steps], the two input variables of the prompt. *)
Definition format_kwargs (input : str) (intermediate_steps : transcript)
  : result (gmap str str) :=
  let thoughts := foldl add_thought [] intermediate_steps in
  let kwargs := <[py "agent_scratchpad" := thoughts]> {[ py "input" := input ]} in
  query ← getitem kwargs (py "input");
  tools ← tools_getter query;
  let kwargs :=
    <[py "tools" :=
        join [NL] ((fun tool => name tool ++ py ": " ++ description tool) <$> tools)]> kwargs in
  let kwargs := <[py "tool_names" := join (py ", ") (name <$> tools)]> kwargs in
  Return kwargs.

Definition format (input : str) (intermediate_steps : transcript) : result str :=
  kwargs ← format_kwargs input intermediate_steps;
  str_format template kwargs.

End Format.
End CustomPromptTemplate.

(** ** Plugins, the similarity index and tool selection *)

Record AIPlugin := mkPlugin { name_for_model : str; description_for_model : str }.

Record Document := mkDocument { page_content : str; metadata : gmap str str }.

Record NLAToolkit := mkToolkit { nla_tools : list Tool }.

Module SimilarityIndex.
Section Index.

(** The distance between the embedding of a query text and the embedding
    of a document text, in the index's metric. *)
Variable distance : str -> str -> N.

(** Modelled from the spec: "closest under the index's distance metric",
    as an order on the stored documents. *)
Definition nearer (text : str) (d1 d2 : Document) : Prop :=
  distance text (page_content d1) <= distance text (page_content d2).

#[global] Instance nearer_dec text d1 d2 : Decision (nearer text d1 d2).
Proof. unfold nearer. apply _. Defined.

(** Modelled from the spec: the Similarity Index of section 4.2, whose
    implementation ([FAISS.from_documents] and the retriever it gives) is
    library code that is not part of the source tree.  [build] stores the
    documents once and for all. *)
Definition build (documents : list Document) : list Document := documents.

(** Modelled from the spec: [query] returns the [k] stored documents closest
    to the text, nearest first; when fewer than [k] are stored it returns
    them all. *)
Definition query (index : list Document) (text : str) (k : nat) : list Document :=
  take k (merge_sort (nearer text) index).

(** Modelled from the spec: "k defaults to a small constant (4 in the
    reference behavior, driven by the underlying library default)". *)
Definition DEFAULT_K : nat := 4.

(** Modelled from the spec: [retriever.get_relevant_documents(text)] for the
    retriever that [as_retriever()] returns when called without arguments,
    a query with the default [k]. *)
Definition get_relevant_documents (index : list Document) (text : str) : list Document :=
  query index text DEFAULT_K.

End Index.
End SimilarityIndex.

(** [[f(x) for x in l]] where [f] may raise. *)
Fixpoint comprehension {A B} (f : A -> result B) (l : list A) : result (list B) :=
  match l with
  | [] => Return []
  | x :: l' => y ← f x; ys ← comprehension f l'; Return (y :: ys)
  end.

(** The plugin manifests fetched by [generate_response]. *)
Definition urls : list str :=
  [ py "https://api.speak.com/.well-known/ai-plugin.json";
    py "https://www.klarna.com/.well-known/ai-plugin.json";
    py "https://schooldigger.com/.well-known/ai-plugin.json" ].

Section ToolSelection.

Variable distance : str -> str -> N.

(** [NLAToolkit.from_llm_and_ai_plugin(llm, plugin)] for the fixed [llm]. *)
Variable from_llm_and_ai_plugin : AIPlugin -> NLAToolkit.

Variable AI_PLUGINS : list AIPlugin.

Definition docs : list Document :=
  (fun plugin =>
     mkDocument (description_for_model plugin)
                {[ py "plugin_name" := name_for_model plugin ]}) <$> AI_PLUGINS.

Definition vector_store : list Document := SimilarityIndex.build docs.

(** The dictionary comprehension: a later plugin replaces an earlier one
    of the same name. *)
Definition insert_toolkit (d : gmap str NLAToolkit) (plugin : AIPlugin)
  : gmap str NLAToolkit :=
  <[name_for_model plugin := from_llm_and_ai_plugin plugin]> d.

Definition toolkits_dict : gmap str NLAToolkit := foldl insert_toolkit ∅ AI_PLUGINS.

Definition get_tools (query : str) : result (list Tool) :=
  let docs := SimilarityIndex.get_relevant_documents distance vector_store query in
  tool_kits ← comprehension
                (fun d => plugin_name ← getitem (metadata d) (py "plugin_name");
                          getitem toolkits_dict plugin_name) docs;
  Return (foldl (fun tools tk => tools ++ nla_tools tk) [] tool_kits).

End ToolSelection.

(** ** The orchestration loop *)

(** [max_iterations=3], the cap handed to [AgentExecutor.from_agent_and_tools]. *)
Definition max_iterations : nat := 3.

(** Modelled from the spec: the states of the Orchestration Loop of section
    4.6 (Thinking, Acting, Done), with the stop at the iteration cap and the
    fatal errors as two further terminal states. *)
Inductive phase :=
| Thinking
| Acting (completion : str)
| Done (answer : str)
| Stopped (output : str)
| Failed (e : exn).

(** Modelled from the spec: the state of a run, that is, where the loop
    stands, the transcript, the number of completed cycles, and the prompts
    sent to the model so far. *)
Record loop_state := mkLoop {
  loop_phase : phase;
  loop_steps : transcript;
  iterations : nat;
  prompts : list str
}.

Module AgentExecutor.
Section Loop.

(** The prompt's tool getter and the tool set given to the executor. *)
Variable tools_getter : str -> result (list Tool).
Variable tools : list Tool.

(** The model, asked for its [n]-th completion of the run, and the
    invocation handle of a tool. *)
Variable llm : nat -> str -> result str.
Variable run_tool : Tool -> str -> result str.

(** What the executor returns when it stops at the cap. *)
Variable return_stopped_response : transcript -> str.

Variable user_query : str.

(** Modelled from the spec: the check of a tool name against the tool set. *)
Definition lookup_tool (tool_name : str) : option Tool :=
  List.find (fun t => bool_decide (name t = tool_name)) tools.

(** Modelled from the spec: the Orchestration Loop of section 4.6.  The
    executor ([AgentExecutor], [LLMSingleActionAgent], [LLMChain]) is
    library code that is not part of the source tree; the source configures
    it with the prompt template, the output parser, the tools and the cap.
    [step] is one transition of the state machine: Thinking assembles the
    prompt and asks the model, unless the cap is reached; Acting parses the
    completion, finishes, or invokes the named tool and appends the
    observation to the transcript. *)
Definition step (s : loop_state) : loop_state :=
  match loop_phase s with
  | Thinking =>
      if decide (max_iterations <= iterations s)%nat then
        mkLoop (Stopped (return_stopped_response (loop_steps s)))
               (loop_steps s) (iterations s) (prompts s)
      else
        match CustomPromptTemplate.format tools_getter user_query (loop_steps s) with
        | Raise e => mkLoop (Failed e) (loop_steps s) (iterations s) (prompts s)
        | Return prompt =>
            match llm (length (prompts s)) prompt with
            | Raise e =>
                mkLoop (Failed e) (loop_steps s) (iterations s) (prompts s ++ [prompt])
            | Return completion =>
                mkLoop (Acting completion) (loop_steps s) (iterations s)
                       (prompts s ++ [prompt])
            end
        end
  | Acting completion =>
      match CustomOutputParser.parse completion with
      | Raise e => mkLoop (Failed e) (loop_steps s) (iterations s) (prompts s)
      | Return (Finish f) =>
          match getitem (return_values f) (py "output") with
          | Return answer => mkLoop (Done answer) (loop_steps s) (iterations s) (prompts s)
          | Raise e => mkLoop (Failed e) (loop_steps s) (iterations s) (prompts s)
          end
      | Return (Action a) =>
          match lookup_tool (tool a) with
          | None =>
              mkLoop (Failed (UnknownToolError (tool a)))
                     (loop_steps s) (iterations s) (prompts s)
          | Some t =>
              match run_tool t (tool_input a) with
              | Raise e => mkLoop (Failed e) (loop_steps s) (iterations s) (prompts s)
              | Return observation =>
                  mkLoop Thinking (loop_steps s ++ [(a, observation)])
                         (S (iterations s)) (prompts s)
              end
          end
      end
  | Done _ | Stopped _ | Failed _ => s
  end.

(** Modelled from the spec: the states in which the loop has ended. *)
Definition terminal (s : loop_state) : bool :=
  match loop_phase s with
  | Done _ | Stopped _ | Failed _ => true
  | Thinking | Acting _ => false
  end.

(** Modelled from the spec: [n] transitions of the loop from [s]. *)
Fixpoint steps_from (n : nat) (s : loop_state) : loop_state :=
  match n with
  | O => s
  | S n' => steps_from n' (step s)
  end.

(** Modelled from the spec: a run starts Thinking with an empty transcript. *)
Definition initial : loop_state := mkLoop Thinking [] 0 [].

(** Modelled from the spec: [agent_executor.run(user_query)], the loop
    followed for [fuel] transitions from its initial state. *)
Definition run (fuel : nat) : loop_state := steps_from fuel initial.

(** Modelled from the spec: what the caller of [run] receives, the final
    answer or the best-effort output as a value, a fatal error as an
    exception. *)
Definition outcome (s : loop_state) : option (result str) :=
  match loop_phase s with
  | Done answer => Some (Return answer)
  | Stopped output => Some (Return output)
  | Failed e => Some (Raise e)
  | Thinking | Acting _ => None
  end.

End Loop.
End AgentExecutor.

(** ** The whole of [generate_response] *)

Section GenerateResponse.

(** The services behind the library calls, each given the API key it is
    configured with where the source passes one. *)
Variable from_url : str -> result AIPlugin.
Variable from_llm_and_ai_plugin : str -> AIPlugin -> NLAToolkit.
Variable embedding_distance : str -> str -> str -> N.
Variable llm : str -> nat -> str -> result str.
Variable run_tool : Tool -> str -> result str.
Variable return_stopped_response : transcript -> str.

Definition generate_response (openai_api_key user_query : str) : result str :=
  AI_PLUGINS ← comprehension from_url urls;
  let get_tools :=
    get_tools (embedding_distance openai_api_key)
              (from_llm_and_ai_plugin openai_api_key) AI_PLUGINS in
  tools ← get_tools user_query;
  let final :=
    AgentExecutor.run get_tools tools (llm openai_api_key) run_tool
      return_stopped_response user_query (2 * max_iterations + 1) in
  match AgentExecutor.outcome final with
  | Some returned => returned
  | None => Raise (ServiceError (py "the executor did not stop"))
  end.

End GenerateResponse.

(** ** The submission form *)

(** What the user has entered when the script runs: the query, the text typed
    into the key field, and whether the submit button was pressed. *)
Record form_input := mkInput {
  query_entry : str;
  key_entry : str;
  submit_pressed : bool
}.

(** What one run of the script does: the [disabled] flags it gives the two
    form widgets, its calls of [generate_response], the texts it writes
    below the form with [st.write] and [st.info], and the exception it lets
    escape, if any.  Widget labels and the text of the spinner that is up
    during the call are not recorded. *)
Record page := mkPage {
  key_disabled : bool;
  submit_disabled : bool;
  calls : list (str * str);
  shown : list str;
  uncaught : option exn
}.

(** [not s] for a string *)
Definition is_empty (s : str) : bool :=
  match s with
  | [] => true
  | _ :: _ => false
  end.

Section Form.

Variable generate_response : str -> str -> result str.

(** The script from [st.text_input] to the end.  A disabled text input
    yields its empty default and a disabled button is never pressed. *)
Definition main_script (entered : form_input) : page :=
  let query_text := query_entry entered in
  let openai_api_key := if is_empty query_text then [] else key_entry entered in
  let submitted := submit_pressed entered && negb (is_empty query_text) in
  if submitted && startswith (py "sk-") openai_api_key then
    match generate_response openai_api_key query_text with
    | Return response =>
        mkPage (is_empty query_text) (is_empty query_text)
               [(openai_api_key, query_text)]
               [py "Here is my response:"; response] None
    | Raise e =>
        mkPage (is_empty query_text) (is_empty query_text)
               [(openai_api_key, query_text)] [] (Some e)
    end
  else
    mkPage (is_empty query_text) (is_empty query_text) [] [] None.

End Form.

(** * Part II: vocabulary of the statements *)

(** ** Occurrences of a substring *)

(** [sub] occurs in [s] at index [i]. *)
Definition occurs_at (sub s : str) (i : nat) : Prop := startswith sub (drop i s) = true.

(** [i] is the index of the last occurrence of [sub] in [s]. *)
Definition last_occurrence (sub s : str) (i : nat) : Prop :=
  occurs_at sub s i /\ forall j, occurs_at sub s j -> (j <= i)%nat.

(** A separator without self-overlap: two occurrences never start less
    than its length apart. *)
Definition unbordered (sep : str) : Prop :=
  forall s i j, occurs_at sep s i -> occurs_at sep s j -> (i < j)%nat ->
                (i + length sep <= j)%nat.

(** ** The language of a pattern *)

(** The language of a pattern: the strings it can consume. *)
Fixpoint lang (r : regex) (w : str) : Prop :=
  match r with
  | Eps => w = []
  | Lit c => w = [c]
  | Star _ item => forallb item w = true
  | Seq r1 r2 => exists w1 w2, w = w1 ++ w2 /\ lang r1 w1 /\ lang r2 w2
  | Group _ r => lang r w
  end.

(** Patterns without capturing groups. *)
Fixpoint groupless (r : regex) : bool :=
  match r with
  | Eps | Lit _ | Star _ _ => true
  | Seq r1 r2 => groupless r1 && groupless r2
  | Group _ _ => false
  end.

(** What an optional index, a run of whitespace, of digits and of
    whitespace again, leaves of the input. *)
Definition skip_index (s : str) : str :=
  lstrip_by isspace (lstrip_by isdecimal (lstrip_by isspace s)).

(** The shape the pattern looks for: an action marker, the action text,
    an input marker, the input text. *)
Definition action_shape (raw pre m1 X m2 Y : str) : Prop :=
  raw = pre ++ m1 ++ X ++ m2 ++ Y /\
  lang CustomOutputParser.ACTION_MARK m1 /\ lang CustomOutputParser.INPUT_MARK m2.

(** Among all readings of [raw] in that shape, the one that starts
    leftmost and, among those, has the shortest action text. *)
Definition first_shape (raw pre X : str) : Prop :=
  forall pre' m1' X' m2' Y',
    action_shape raw pre' m1' X' m2' Y' ->
    (length pre <= length pre')%nat /\
    (length pre' = length pre -> (length X <= length X')%nat).

(** The specification's reading of the tool input: "one pair of
    surrounding double quotes stripped". *)
Definition spec_unquote (s : str) : str :=
  match s with
  | c :: s' =>
      match reverse s' with
      | d :: r => if (c =? DQUOTE) && (d =? DQUOTE) then reverse r else s
      | [] => s
      end
  | [] => []
  end.

(** The specification's tool input for an input text [Y]: leading and
    trailing spaces, then one pair of surrounding double quotes, removed. *)
Definition spec_tool_input (Y : str) : str :=
  spec_unquote (strip_chars (py " ") Y).

(** ** The rendered prompt *)

(** The fixed text of the template around its four replacement fields. *)
Definition template_before_tools : str :=
  join [NL]
    [ py "Answer the following questions as best you can, speaking casual American English. You have access to the following tools:";
      [];
      py "    " ].

Definition template_before_tool_names : str :=
  join [NL]
    [ [];
      [];
      py "    Use the following format:";
      [];
      py "    Question: the input question you must answer";
      py "    Thought: you should always think about what to do";
      py "    Action: the action to take, should be one of [" ].

Definition template_before_input : str :=
  join [NL]
    [ py "]";
      py "    Action Input: the input to the action";
      py "    Observation: the result of the action";
      py "    ... (this Thought/Action/Action Input/Observation can repeat N times)";
      py "    Thought: I now know the final answer";
      py "    Final Answer: the final answer to the original input question";
      [];
      py "    Begin! Remember to speak casual American English when giving your final answer.";
      [];
      py "    Question: " ].

Definition template_before_scratchpad : str := [NL] ++ py "    ".

(** The text of one tool and of one transcript entry. *)
Definition tool_line (tool : Tool) : str := name tool ++ py ": " ++ description tool.

Definition scratchpad_entry (step : AgentAction * str) : str :=
  log step.1 ++ [NL] ++ py "Observation: " ++ step.2 ++ [NL] ++ py "Thought: ".

(** The prompt for a tool list, a query and a transcript. *)
Definition rendered (tools : list Tool) (query : str) (steps : transcript) : str :=
  template_before_tools ++ join [NL] (tool_line <$> tools) ++
  template_before_tool_names ++ join (py ", ") (name <$> tools) ++
  template_before_input ++ query ++
  template_before_scratchpad ++ concat (scratchpad_entry <$> steps).

(** ** Tool selection *)

(** The toolkit that [get_tools] finds for a document. *)
Definition toolkit_for (from_llm_and_ai_plugin : AIPlugin -> NLAToolkit)
    (plugins : list AIPlugin) (doc : Document) : NLAToolkit :=
  default (mkToolkit [])
    (plugin_name ← metadata doc !! py "plugin_name";
     toolkits_dict from_llm_and_ai_plugin plugins !! plugin_name).

(** ** The loop *)

(** What holds of every state of a run. *)
Definition loop_inv (return_stopped_response : transcript -> str) (s : loop_state) : Prop :=
  match loop_phase s with
  | Thinking =>
      length (prompts s) = iterations s /\ (iterations s <= max_iterations)%nat
  | Acting _ =>
      length (prompts s) = S (iterations s) /\ (iterations s < max_iterations)%nat
  | Stopped output =>
      length (prompts s) = max_iterations /\ iterations s = max_iterations /\
      output = return_stopped_response (loop_steps s)
  | Done _ | Failed _ =>
      (length (prompts s) <= max_iterations)%nat /\ (iterations s < max_iterations)%nat
  end.

(** The number of transitions a state is away from a terminal one, at most. *)
Definition fuel_left (s : loop_state) : nat :=
  match loop_phase s with
  | Thinking => 2 * (max_iterations - iterations s) + 1
  | Acting _ => 2 * (max_iterations - iterations s)
  | Done _ | Stopped _ | Failed _ => 0
  end.

(** ** Sample services, for the concrete instances *)

(** Manifests named after their location, one tool per plugin, and a
    distance that only looks at lengths. *)
Definition example_from_url (url : str) : result AIPlugin :=
  Return (mkPlugin url (py "manifest fetched from " ++ url)).

Definition example_toolkit (plugin : AIPlugin) : NLAToolkit :=
  mkToolkit [mkTool (name_for_model plugin) (description_for_model plugin)].

Definition example_distance (text content : str) : N :=
  N.of_nat (length text + length content).

(** A run in which the model asks for the same tool every time. *)
Definition example_tools : list Tool := [mkTool (py "search") (py "finds products")].

Definition example_getter (query : str) : result (list Tool) := Return example_tools.

Definition example_llm (n : nat) (prompt : str) : result str :=
  Return (py "Action: search" ++ [NL] ++ py "Action Input: shirts").

Definition example_run_tool (t : Tool) (tool_input : str) : result str :=
  Return (py "3 shirts").

Definition example_stopped (steps : transcript) : str :=
  py "Agent stopped due to iteration limit or time limit.".

Definition example_run (fuel : nat) : loop_state :=
  AgentExecutor.run example_getter example_tools example_llm example_run_tool
    example_stopped (py "What shirts can I buy?") fuel.

Definition example_generate_response (openai_api_key user_query : str) : result str :=
  Return (py "You can buy three shirts.").

(** ** Further vocabulary *)

(** Neither the first nor the last character of [s] is in the class [p]. *)
Definition ends_outside (p : N -> bool) (s : str) : Prop :=
  forall c, head s = Some c \/ last s = Some c -> p c = false.

(** The completion that the template asks the model for: an action line
    and an action-input line. *)
Definition action_text (tool_name tool_in : str) : str :=
  py "Action: " ++ tool_name ++ [NL] ++ py "Action Input: " ++ tool_in.

(** A manifest service whose second location cannot be reached. *)
Definition example_failing_from_url (url : str) : result AIPlugin :=
  if startswith (py "https://www.klarna.com") url
  then Raise (ServiceError (py "unreachable"))
  else example_from_url url.

(** A manifest service under which the first two locations declare the
    same name. *)
Definition example_shared_name_from_url (url : str) : result AIPlugin :=
  Return (mkPlugin (if startswith (py "https://schooldigger.com") url
                    then py "SchoolDigger" else py "shop")
                   (py "manifest fetched from " ++ url)).

(** * Part III: properties *)

(** ** Properties of the string operations *)

Section StringFacts.

Implicit Types (p sub sep s t : str) (i j n : nat).

Lemma startswith_app p t : startswith p (p ++ t) = true.
Proof. induction p as [|a p IH]; simpl; [done|]. by rewrite N.eqb_refl. Qed.

Lemma startswith_prefix p s : startswith p s = true <-> exists t, s = p ++ t.
Proof.
  split.
  - revert s. induction p as [|a p IH]; intros s H; simpl in *; [by exists s|].
    destruct s as [|b s]; [done|].
    apply andb_true_iff in H as [Hab Hp]. apply N.eqb_eq in Hab as ->.
    destruct (IH _ Hp) as [t ->]. by exists t.
  - intros [t ->]. apply startswith_app.
Qed.

Lemma occurs_at_S sub c s i : occurs_at sub (c :: s) (S i) <-> occurs_at sub s i.
Proof. done. Qed.

Lemma occurs_at_split sub s i :
  occurs_at sub s i -> s = take i s ++ sub ++ drop (i + length sub) s.
Proof.
  unfold occurs_at. intros [t Ht]%startswith_prefix.
  rewrite <- drop_drop, Ht, drop_app_length, <- Ht. by rewrite take_drop.
Qed.

Lemma occurs_at_app sub pre t : occurs_at sub (pre ++ sub ++ t) (length pre).
Proof. unfold occurs_at. rewrite drop_app_length. apply startswith_app. Qed.

Lemma occurs_at_lt sub s i : sub <> [] -> occurs_at sub s i -> (i < length s)%nat.
Proof.
  intros Hne H. destruct (decide (i < length s)%nat) as [|Hge]; [done|].
  unfold occurs_at in H. rewrite drop_ge in H by lia. by destruct sub.
Qed.

Lemma contains_occurs sub s : contains sub s = true <-> exists i, occurs_at sub s i.
Proof.
  induction s as [|c s IH].
  - simpl. rewrite orb_false_r. split; [by exists 0%nat|].
    intros [i H]. unfold occurs_at in H. by rewrite drop_nil in H.
  - change (contains sub (c :: s)) with (startswith sub (c :: s) || contains sub s).
    rewrite orb_true_iff, IH. split.
    + intros [H|[i H]]; [by exists 0%nat | by exists (S i)].
    + intros [[|i] H]; [by left | right; by exists i].
Qed.

Lemma contains_app sub pre t : contains sub (pre ++ sub ++ t) = true.
Proof. apply contains_occurs. eexists. apply occurs_at_app. Qed.

Lemma contains_false sub s i : contains sub s = false -> ~ occurs_at sub s i.
Proof.
  intros Hc Ho. assert (contains sub s = true) by (apply contains_occurs; eauto).
  congruence.
Qed.

Lemma find_cons sub c s :
  find sub (c :: s) = if startswith sub (c :: s) then Some 0%nat else S <$> find sub s.
Proof. done. Qed.

Lemma contains_cons sub c s :
  contains sub (c :: s) = startswith sub (c :: s) || contains sub s.
Proof. done. Qed.

Lemma find_Some sub s i :
  find sub s = Some i ->
  occurs_at sub s i /\ forall j, occurs_at sub s j -> (i <= j)%nat.
Proof.
  revert i. induction s as [|c s IH]; intros i.
  - simpl. destruct (startswith sub []) eqn:E; [|done].
    intros [= <-]. split; [done|lia].
  - rewrite find_cons. destruct (startswith sub (c :: s)) eqn:E.
    + intros [= <-]. split; [done|lia].
    + destruct (find sub s) as [k|] eqn:F; [|done].
      intros [= <-]. destruct (IH k eq_refl) as [H1 H2]. split; [done|].
      intros [|j] Hj; [unfold occurs_at in Hj; simpl in Hj; congruence|].
      apply occurs_at_S, H2 in Hj. lia.
Qed.

Lemma find_None sub s : find sub s = None <-> contains sub s = false.
Proof.
  induction s as [|c s IH].
  - simpl. destruct (startswith sub []); simpl; split; congruence.
  - rewrite find_cons, contains_cons.
    destruct (startswith sub (c :: s)); simpl; [split; congruence|].
    rewrite <- IH. destruct (find sub s); simpl; split; congruence.
Qed.

Lemma last_occurrence_exists sub s :
  sub <> [] -> contains sub s = true -> exists i, last_occurrence sub s i.
Proof.
  intros Hne. induction s as [|c s IH].
  - simpl. rewrite orb_false_r. intros H. by destruct sub.
  - change (contains sub (c :: s)) with (startswith sub (c :: s) || contains sub s).
    destruct (contains sub s) eqn:Hc.
    + intros _. destruct (IH eq_refl) as [i [Hi Hmax]]. exists (S i). split; [done|].
      intros [|j] Hj; [lia|]. apply occurs_at_S, Hmax in Hj. lia.
    + rewrite orb_false_r. intros H. exists 0%nat. split; [done|].
      intros [|j] Hj; [lia|]. apply occurs_at_S in Hj. by apply contains_false in Hj.
Qed.

Lemma split_loop_none n sep s : contains sep s = false -> split_loop n sep s = [s].
Proof. intros H%find_None. destruct n; simpl; [done | by rewrite H]. Qed.

Lemma split_loop_nonempty n sep s : split_loop n sep s <> [].
Proof. destruct n; simpl; [done|]. by destruct (find sep s). Qed.

Lemma occurs_at_drop sub s k i : occurs_at sub (drop k s) i <-> occurs_at sub s (k + i).
Proof. unfold occurs_at. by rewrite drop_drop. Qed.

Lemma split_loop_last n sep s i :
  sep <> [] -> unbordered sep -> (length s <= n)%nat ->
  last_occurrence sep s i ->
  last (split_loop n sep s) = Some (drop (i + length sep) s).
Proof.
  intros Hne Hub. revert s i. induction n as [|n IH]; intros s i Hlen [Hi Hmax].
  - apply (occurs_at_lt _ _ _ Hne) in Hi. lia.
  - simpl. destruct (find sep s) as [j|] eqn:F.
    2:{ apply find_None in F. by apply contains_false with (i:=i) in F. }
    apply find_Some in F as [Hj Hmin].
    pose proof (occurs_at_lt _ _ _ Hne Hj) as Hjlt.
    assert (0 < length sep)%nat by (destruct sep; [done|simpl; lia]).
    rewrite last_cons.
    destruct (decide (j = i)) as [->|Hji].
    + rewrite split_loop_none; [done|].
      destruct (contains sep (drop (i + length sep) s)) eqn:Hc; [|done].
      apply contains_occurs in Hc as [m Hm]. apply occurs_at_drop, Hmax in Hm. lia.
    + pose proof (Hmin _ Hi). pose proof (Hub s j i Hj Hi ltac:(lia)) as Hfar.
      rewrite (IH (drop (j + length sep) s) (i - (j + length sep))%nat).
      * rewrite drop_drop. do 2 f_equal. lia.
      * rewrite length_drop. lia.
      * split.
        -- apply occurs_at_drop. by replace (j + length sep + (i - (j + length sep)))%nat with i by lia.
        -- intros m Hm. apply occurs_at_drop, Hmax in Hm. lia.
Qed.

End StringFacts.

(** ** The final-answer branch of the parser *)

Section FinalAnswer.

Import CustomOutputParser.

Lemma final_marker_unbordered : unbordered (py "Final Answer:").
Proof.
  intros s i j Hi Hj Hlt.
  destruct (decide (i + length (py "Final Answer:") <= j)%nat) as [|Hnear]; [done|].
  exfalso. unfold occurs_at in Hi, Hj.
  apply startswith_prefix in Hi as [t Ht].
  replace j with (i + (j - i))%nat in Hj by lia.
  rewrite <- drop_drop, Ht in Hj.
  assert (0 < j - i < 13)%nat as Hk by (simpl in Hnear; lia).
  revert Hj Hk. generalize (j - i)%nat. intros k Hj Hk.
  do 13 (destruct k as [|k]; [first [lia | by vm_compute in Hj]|]).
  lia.
Qed.

Lemma split_final_last s i :
  last_occurrence (py "Final Answer:") s i ->
  (pieces ← split (py "Final Answer:") s; last_item pieces)
  = Return (drop (i + length (py "Final Answer:")) s).
Proof.
  intros H. unfold split, last_item. cbn [py mbind result_bind].
  erewrite split_loop_last; eauto using final_marker_unbordered.
Qed.

(** C1.  Whenever the completion contains the marker "Final Answer:", the
    parser returns an [AgentFinish] whose [output] is the text after the
    last occurrence of the marker, stripped of surrounding whitespace, and
    whose log is the whole completion. *)
Theorem parse_final_answer (rawText : str) :
  contains (py "Final Answer:") rawText = true ->
  exists i,
    last_occurrence (py "Final Answer:") rawText i /\
    parse rawText =
      Return (Finish (mkFinish
        {[ py "output" := strip (drop (i + length (py "Final Answer:")) rawText) ]}
        rawText)).
Proof.
  intros Hc.
  destruct (last_occurrence_exists (py "Final Answer:") rawText) as [i Hi];
    [by vm_compute | done |].
  exists i. split; [done|].
  unfold parse. rewrite Hc.
  pose proof (split_final_last _ _ Hi) as Hs.
  destruct (split (py "Final Answer:") rawText) as [pieces|e]; [|done].
  cbn [mbind result_bind] in Hs |- *. by rewrite Hs.
Qed.

Lemma parse_final_answer_witness :
  let rawText := py "Thought: done. Final Answer: 41 Final Answer: 42  " in
  contains (py "Final Answer:") rawText = true /\
  exists i,
    last_occurrence (py "Final Answer:") rawText i /\
    parse rawText =
      Return (Finish (mkFinish
        {[ py "output" := strip (drop (i + length (py "Final Answer:")) rawText) ]}
        rawText)).
Proof.
  intros rawText. split; [reflexivity|].
  apply (parse_final_answer rawText). reflexivity.
Defined.

(** The round-trip form: text after the marker that does not contain the
    marker again is returned stripped, whatever precedes the marker. *)
Lemma parse_final_round_trip (prefix answer : str) :
  contains (py "Final Answer:") answer = false ->
  parse (prefix ++ py "Final Answer:" ++ answer) =
    Return (Finish (mkFinish {[ py "output" := strip answer ]}
                      (prefix ++ py "Final Answer:" ++ answer))).
Proof.
  intros Hans. set (raw := prefix ++ py "Final Answer:" ++ answer).
  assert (last_occurrence (py "Final Answer:") raw (length prefix)) as Hlast.
  { split; [apply occurs_at_app|]. intros j Hj.
    destruct (decide (j <= length prefix)%nat) as [|Hgt]; [done|]. exfalso.
    pose proof (final_marker_unbordered raw (length prefix) j
                  (occurs_at_app _ _ _) Hj ltac:(lia)) as Hfar.
    apply (contains_false _ _ (j - (length prefix + length (py "Final Answer:")))%nat Hans).
    unfold occurs_at in Hj |- *. unfold raw in Hj.
    replace j with (length prefix + (length (py "Final Answer:") +
                      (j - (length prefix + length (py "Final Answer:")))))%nat in Hj by lia.
    by rewrite <- !drop_drop, !drop_app_length in Hj. }
  assert (contains (py "Final Answer:") raw = true) as Hc by apply contains_app.
  unfold parse. rewrite Hc.
  pose proof (split_final_last _ _ Hlast) as Hs.
  destruct (split (py "Final Answer:") raw) as [pieces|e]; [|done].
  cbn [mbind result_bind] in Hs |- *. rewrite Hs. unfold raw.
  by rewrite <- drop_drop, !drop_app_length.
Qed.

End FinalAnswer.

(** ** Properties of the matcher *)

Section Matcher.

Implicit Types (r : regex) (st : mstate) (s t w : str) (item : N -> bool).

Lemma elem_of_star_max item s s' :
  s' ∈ star_max item s <-> exists w, s = w ++ s' /\ forallb item w = true.
Proof.
  induction s as [|c s IH]; simpl.
  - rewrite list_elem_of_singleton. split.
    + intros ->. by exists [].
    + intros [w [Hw _]]. symmetry in Hw. by apply app_eq_nil in Hw as [_ ->].
  - destruct (item c) eqn:Hc.
    + rewrite elem_of_app, list_elem_of_singleton, IH. split.
      * intros [[w [-> Hw]] | ->]; [|by exists []].
        exists (c :: w). simpl. by rewrite Hc.
      * intros [[|c' w] [Heq Hw]]; simpl in *; [by right|].
        injection Heq as <- ->. apply andb_true_iff in Hw as [_ Hw]. left. by exists w.
    + rewrite list_elem_of_singleton. split.
      * intros ->. by exists [].
      * intros [[|c' w] [Heq Hw]]; simpl in *; [done|].
        injection Heq as <- ->. by rewrite Hc in Hw.
Qed.

Lemma elem_of_star_min item s s' :
  s' ∈ star_min item s <-> exists w, s = w ++ s' /\ forallb item w = true.
Proof.
  induction s as [|c s IH]; simpl.
  - rewrite list_elem_of_singleton. split.
    + intros ->. by exists [].
    + intros [w [Hw _]]. symmetry in Hw. by apply app_eq_nil in Hw as [_ ->].
  - rewrite elem_of_cons. destruct (item c) eqn:Hc.
    + rewrite IH. split.
      * intros [-> | [w [-> Hw]]]; [by exists []|].
        exists (c :: w). simpl. by rewrite Hc.
      * intros [[|c' w] [Heq Hw]]; simpl in *; [by left|].
        injection Heq as <- ->. apply andb_true_iff in Hw as [_ Hw]. right. by exists w.
    + rewrite elem_of_nil. split.
      * intros [-> | []]. by exists [].
      * intros [[|c' w] [Heq Hw]]; simpl in *; [by left|].
        injection Heq as <- ->. by rewrite Hc in Hw.
Qed.

(** Every state reached by [exec] is reached by consuming a word of the
    pattern's language. *)
Lemma exec_sound r st st' :
  st' ∈ exec r st -> exists w, rest st = w ++ rest st' /\ lang r w.
Proof.
  revert st st'. induction r as [|c|g item|r1 IH1 r2 IH2|n r IH]; intros st st'; simpl.
  - intros ->%list_elem_of_singleton. by exists [].
  - destruct (rest st) as [|x s] eqn:Hs; [by intros ?%elem_of_nil|].
    destruct (N.eqb_spec x c) as [->|]; [|by intros ?%elem_of_nil].
    intros ->%list_elem_of_singleton. by exists [c].
  - intros (s' & -> & Hs')%list_elem_of_fmap. simpl.
    destruct g; [apply elem_of_star_max in Hs' | apply elem_of_star_min in Hs']; done.
  - intros (mid & H2 & H1)%list_elem_of_bind.
    destruct (IH1 _ _ H1) as (w1 & E1 & L1). destruct (IH2 _ _ H2) as (w2 & E2 & L2).
    exists (w1 ++ w2). split; [by rewrite E1, E2, (assoc_L (++))|]. by exists w1, w2.
  - intros (mid & -> & H)%list_elem_of_fmap. simpl. by apply IH.
Qed.

(** Every word of the language, found at the front of the input, is
    consumed along some path of [exec]. *)
Lemma exec_complete r w st t :
  lang r w -> rest st = w ++ t -> exists st', st' ∈ exec r st /\ rest st' = t.
Proof.
  revert w st t. induction r as [|c|g item|r1 IH1 r2 IH2|n r IH]; intros w st t; simpl.
  - intros -> Hst. exists st. by rewrite list_elem_of_singleton.
  - intros -> Hst. rewrite Hst. simpl. rewrite N.eqb_refl.
    eexists. by rewrite list_elem_of_singleton.
  - intros Hw Hst. exists (MState t (groups st)). split; [|done].
    apply list_elem_of_fmap. exists t. split; [done|].
    destruct g; [apply elem_of_star_max | apply elem_of_star_min]; by exists w.
  - intros (w1 & w2 & -> & L1 & L2) Hst. rewrite <- (assoc_L (++)) in Hst.
    destruct (IH1 _ _ _ L1 Hst) as (mid & H1 & Hmid).
    destruct (IH2 _ _ _ L2 Hmid) as (st' & H2 & Hst').
    exists st'. split; [|done]. apply list_elem_of_bind. by exists mid.
  - intros L Hst. destruct (IH _ _ _ L Hst) as (st' & H & Hst').
    eexists. split; [apply list_elem_of_fmap; by eexists|]. done.
Qed.

Lemma exec_groupless r st st' :
  groupless r = true -> st' ∈ exec r st -> groups st' = groups st.
Proof.
  revert st st'. induction r as [|c|g item|r1 IH1 r2 IH2|n r IH]; intros st st'; simpl;
    [| | | |done].
  - by intros _ ->%list_elem_of_singleton.
  - intros _. destruct (rest st) as [|x s]; [by intros ?%elem_of_nil|].
    destruct (x =? c); [|by intros ?%elem_of_nil]. by intros ->%list_elem_of_singleton.
  - by intros _ (s' & -> & _)%list_elem_of_fmap.
  - intros [G1 G2]%andb_true_iff (mid & H2 & H1)%list_elem_of_bind.
    by rewrite (IH2 _ _ G2 H2), (IH1 _ _ G1 H1).
Qed.

Lemma lang_lit (l : str) w : lang (lit l) w <-> w = l.
Proof.
  revert w. induction l as [|c l IH]; intros w; simpl; [done|]. split.
  - intros (w1 & w2 & -> & -> & ->%IH). done.
  - intros ->. exists [c], l. by rewrite IH.
Qed.

Lemma match_here_None r s : match_here r s = None <-> exec r (MState s ∅) = [].
Proof. apply head_None. Qed.

(** An anchored match succeeds exactly when a prefix of the input is in
    the language. *)
Lemma match_here_is_Some r s :
  is_Some (match_here r s) <-> exists w t, s = w ++ t /\ lang r w.
Proof.
  unfold match_here. split.
  - intros [m Hm]. apply head_Some_elem_of, exec_sound in Hm as (w & Hs & Hw).
    by exists w, (rest m).
  - intros (w & t & -> & Hw).
    destruct (exec_complete r w (MState (w ++ t) ∅) t Hw eq_refl) as (st' & Hin & _).
    apply head_is_Some. intros E. rewrite E in Hin. by apply elem_of_nil in Hin.
Qed.

Lemma search_Some_inv r s m :
  search r s = Some m ->
  exists pre, match_here r (drop (length pre) s) = Some m /\
              pre `prefix_of` s /\
              forall i, (i < length pre)%nat -> match_here r (drop i s) = None.
Proof.
  revert m. induction s as [|c s IH]; intros m; simpl.
  - destruct (match_here r []) as [m'|] eqn:E; [|done].
    intros [= ->]. exists []. split_and!; [done|by exists []|simpl; lia].
  - destruct (match_here r (c :: s)) as [m'|] eqn:E.
    + intros [= ->]. exists []. split_and!; [done|by exists (c :: s)|simpl; lia].
    + intros (pre & Hm & [k ->] & Hmin)%IH. exists (c :: pre).
      split_and!; [done|by exists k|]. intros [|i] Hi; [done|]. apply Hmin. simpl in Hi. lia.
Qed.

Lemma search_None r s :
  search r s = None <-> forall i, match_here r (drop i s) = None.
Proof.
  induction s as [|c s IH]; simpl.
  - destruct (match_here r []) eqn:E; split; try done.
    + intros H. specialize (H 0%nat). simpl in H. congruence.
    + intros _ i. by rewrite drop_nil.
  - destruct (match_here r (c :: s)) eqn:E.
    + split; [done|]. intros H. specialize (H 0%nat). simpl in H. congruence.
    + rewrite IH. split.
      * intros H [|i]; [done|apply H].
      * intros H i. apply (H (S i)).
Qed.

(** [re.search] fails exactly when no substring is in the language. *)
Lemma search_None_lang r s :
  search r s = None <-> forall pre w post, s = pre ++ w ++ post -> ~ lang r w.
Proof.
  rewrite search_None. split.
  - intros H pre w post -> Hw. specialize (H (length pre)).
    rewrite drop_app_length in H.
    assert (is_Some (match_here r (w ++ post))) as [m Hm]
      by (apply match_here_is_Some; by exists w, post).
    congruence.
  - intros H i. destruct (match_here r (drop i s)) as [m|] eqn:E; [|done].
    assert (is_Some (match_here r (drop i s))) as (w & t & Hs & Hw)%match_here_is_Some
      by (by exists m).
    exfalso. apply (H (take i s) w t); [|done]. by rewrite <- Hs, take_drop.
Qed.

(** The first answer of a bind over copies of one state. *)
Lemma head_bind_constant {A B} (l : list A) (x : A) (f : A -> list B) :
  l <> [] -> (forall y, y ∈ l -> y = x) -> head (l ≫= f) = head (f x).
Proof.
  induction l as [|a l IH]; [done|]. intros _ Hall.
  rewrite bind_cons, head_app. rewrite (Hall a) by left.
  destruct (head (f x)) eqn:E; [done|].
  destruct l as [|b l]; [done|]. rewrite IH; [done|done|].
  intros y Hy. apply Hall. by right.
Qed.

Lemma star_min_cons item s : star_min item s = s :: tail (star_min item s).
Proof. by destruct s. Qed.

(** The first answer through a lazy run: the shortest run after which
    the continuation [k] succeeds. *)
Lemma head_star_min_bind {B} (g : str -> mstate) (k : mstate -> list B) w t :
  (forall w1 w2, w = w1 ++ w2 -> w2 <> [] -> k (g (w2 ++ t)) = []) ->
  k (g t) <> [] ->
  head ((g <$> star_min CustomOutputParser.any_all (w ++ t)) ≫= k) = head (k (g t)).
Proof.
  intros Hfail Hok. induction w as [|c w IH].
  - simpl. rewrite star_min_cons, fmap_cons, bind_cons, head_app.
    destruct (k (g t)); done.
  - rewrite star_min_cons, fmap_cons, bind_cons, (Hfail [] (c :: w)) by done.
    simpl. apply IH. intros w1 w2 -> Hw2. by apply (Hfail (c :: w1) w2).
Qed.

Lemma star_max_head item s : head (star_max item s) = Some (lstrip_by item s).
Proof.
  induction s as [|c s IH]; simpl; [done|].
  destruct (item c); [|done]. by rewrite head_app, IH.
Qed.

Lemma lstrip_by_any s : lstrip_by CustomOutputParser.any_all s = [].
Proof. by induction s. Qed.

End Matcher.

(** ** The action branch of the parser *)

Section CharacterClasses.

Lemma in_ranges_disjoint rs1 rs2 c :
  forallb (fun r1 => forallb (fun r2 => (r1.2 <? r2.1) || (r2.2 <? r1.1)) rs2) rs1 = true ->
  in_ranges rs1 c = true -> in_ranges rs2 c = false.
Proof.
  intros Hd H1. destruct (in_ranges rs2 c) eqn:H2; [|done]. exfalso.
  unfold in_ranges in H1, H2.
  apply existsb_exists in H1 as (r1 & Hr1 & Hc1).
  apply existsb_exists in H2 as (r2 & Hr2 & Hc2).
  rewrite forallb_forall in Hd. specialize (Hd r1 Hr1).
  rewrite forallb_forall in Hd. specialize (Hd r2 Hr2).
  unfold in_range in Hc1, Hc2.
  apply andb_true_iff in Hc1 as [?%N.leb_le ?%N.leb_le].
  apply andb_true_iff in Hc2 as [?%N.leb_le ?%N.leb_le].
  apply orb_true_iff in Hd as [?%N.ltb_lt|?%N.ltb_lt]; lia.
Qed.

Lemma space_not_decimal c : isspace c = true -> isdecimal c = false.
Proof. apply in_ranges_disjoint. by vm_compute. Qed.

Lemma decimal_not_space c : isdecimal c = true -> isspace c = false.
Proof. apply in_ranges_disjoint. by vm_compute. Qed.

Lemma lstrip_by_app p (w r : str) :
  forallb p w = true -> lstrip_by p (w ++ r) = lstrip_by p r.
Proof.
  induction w as [|c w IH]; simpl; [done|].
  intros [-> Hw]%andb_true_iff. by apply IH.
Qed.

Lemma lstrip_by_stop p c (t : str) : p c = false -> lstrip_by p (c :: t) = c :: t.
Proof. simpl. by intros ->. Qed.

Lemma skip_index_block (w1 d w2 : str) c (t : str) :
  forallb isspace w1 = true -> forallb isdecimal d = true -> forallb isspace w2 = true ->
  isspace c = false -> isdecimal c = false ->
  skip_index (w1 ++ d ++ w2 ++ c :: t) = c :: t.
Proof.
  intros H1 Hd H2 Hcs Hcd. unfold skip_index.
  rewrite (lstrip_by_app isspace w1) by done.
  destruct d as [|a d].
  - simpl app. rewrite (lstrip_by_app isspace w2) by done.
    by rewrite !lstrip_by_stop.
  - simpl in Hd. apply andb_true_iff in Hd as [Ha Hd].
    change ((a :: d) ++ w2 ++ c :: t) with (a :: (d ++ w2 ++ c :: t)).
    rewrite (lstrip_by_stop isspace a) by by apply decimal_not_space.
    change (a :: (d ++ w2 ++ c :: t)) with ((a :: d) ++ w2 ++ c :: t).
    rewrite (lstrip_by_app isdecimal (a :: d)) by (simpl; by rewrite Ha).
    assert (lstrip_by isdecimal (w2 ++ c :: t) = w2 ++ c :: t) as ->.
    { destruct w2 as [|b w2]; simpl app; [by apply lstrip_by_stop|].
      simpl in H2. apply andb_true_iff in H2 as [Hb _].
      apply lstrip_by_stop. by apply space_not_decimal. }
    rewrite (lstrip_by_app isspace w2) by done. by apply lstrip_by_stop.
Qed.

End CharacterClasses.

Section ActionBranch.

Import CustomOutputParser.

Implicit Types (raw pre m X Y w t : str).

Lemma lang_ACTION_MARK m :
  lang ACTION_MARK m <->
  exists w1 d w2,
    m = py "Action" ++ w1 ++ d ++ w2 ++ [COLON] /\
    forallb isspace w1 = true /\ forallb isdecimal d = true /\ forallb isspace w2 = true.
Proof.
  unfold ACTION_MARK. cbn [cat lang ws ds]. split.
  - intros (a & ? & -> & ->%lang_lit & w1 & ? & -> & H1 & d & ? & -> & Hd & w2 & ?
            & -> & H2 & c & ? & -> & -> & ->).
    by exists w1, d, w2.
  - intros (w1 & d & w2 & -> & H1 & Hd & H2).
    exists (py "Action"), (w1 ++ d ++ w2 ++ [COLON]). split_and!; [done|by apply lang_lit|].
    exists w1, (d ++ w2 ++ [COLON]). split_and!; [done..|].
    exists d, (w2 ++ [COLON]). split_and!; [done..|].
    exists w2, [COLON]. split_and!; [done..|].
    by exists [COLON], [].
Qed.

Lemma lang_INPUT_MARK m :
  lang INPUT_MARK m <->
  exists w1 d w2 w3 e w4,
    m = NL :: py "Action" ++ w1 ++ d ++ w2 ++ py "Input" ++ w3 ++ e ++ w4 ++ [COLON] /\
    forallb isspace w1 = true /\ forallb isdecimal d = true /\ forallb isspace w2 = true /\
    forallb isspace w3 = true /\ forallb isdecimal e = true /\ forallb isspace w4 = true.
Proof.
  unfold INPUT_MARK. cbn [cat lang ws ds]. split.
  - intros (? & ? & -> & -> & a & ? & -> & ->%lang_lit
            & w1 & ? & -> & H1 & d & ? & -> & Hd & w2 & ? & -> & H2
            & i & ? & -> & ->%lang_lit
            & w3 & ? & -> & H3 & e & ? & -> & He & w4 & ? & -> & H4
            & c & ? & -> & -> & ->).
    by exists w1, d, w2, w3, e, w4.
  - intros (w1 & d & w2 & w3 & e & w4 & -> & H1 & Hd & H2 & H3 & He & H4).
    exists [NL]. eexists. split_and!; [done..|].
    exists (py "Action"). eexists. split_and!; [done|by apply lang_lit|].
    exists w1. eexists. split_and!; [done..|].
    exists d. eexists. split_and!; [done..|].
    exists w2. eexists. split_and!; [done..|].
    exists (py "Input"). eexists. split_and!; [done|by apply lang_lit|].
    exists w3. eexists. split_and!; [done..|].
    exists e. eexists. split_and!; [done..|].
    exists w4. eexists. split_and!; [done..|].
    by exists [COLON], [].
Qed.

(** A marker found at the front of an input is determined by the input. *)
Lemma action_mark_unique m m' t t' :
  lang ACTION_MARK m -> lang ACTION_MARK m' -> m ++ t = m' ++ t' -> m = m' /\ t = t'.
Proof.
  intros (w1 & d & w2 & -> & H1 & Hd & H2)%lang_ACTION_MARK
         (w1' & d' & w2' & -> & H1' & Hd' & H2')%lang_ACTION_MARK Heq.
  assert (t = t') as <-; [|split; [by apply app_inv_tail in Heq|done]].
  rewrite <- !(assoc_L (++)) in Heq. apply app_inv_head in Heq.
  apply (f_equal skip_index) in Heq. simpl app in Heq.
  rewrite !skip_index_block in Heq by done. by injection Heq.
Qed.

Lemma input_mark_unique m m' t t' :
  lang INPUT_MARK m -> lang INPUT_MARK m' -> m ++ t = m' ++ t' -> m = m' /\ t = t'.
Proof.
  intros (w1 & d & w2 & w3 & e & w4 & -> & H1 & Hd & H2 & H3 & He & H4)%lang_INPUT_MARK
         (w1' & d' & w2' & w3' & e' & w4' & -> & H1' & Hd' & H2' & H3' & He' & H4')%lang_INPUT_MARK
         Heq.
  assert (t = t') as <-; [|split; [by apply app_inv_tail in Heq|done]].
  change (NL :: py "Action" ++ ?x) with ((NL :: py "Action") ++ x) in Heq.
  rewrite <- !(assoc_L (++)) in Heq. apply app_inv_head in Heq.
  apply (f_equal skip_index) in Heq.
  change (py "Input" ++ ?x) with (73 :: (py "nput" ++ x)) in Heq.
  rewrite !skip_index_block in Heq by done.
  injection Heq as Heq.
  apply (f_equal skip_index) in Heq. simpl app in Heq.
  rewrite !skip_index_block in Heq by done. by injection Heq.
Qed.

(** All paths through a group-free pattern with that property end in the
    same state. *)
Lemma exec_deterministic r st x y :
  groupless r = true ->
  (forall m m' t t', lang r m -> lang r m' -> m ++ t = m' ++ t' -> m = m' /\ t = t') ->
  x ∈ exec r st -> y ∈ exec r st -> x = y.
Proof.
  intros Hg Huniq Hx Hy.
  pose proof (exec_groupless _ _ _ Hg Hx) as Gx.
  pose proof (exec_groupless _ _ _ Hg Hy) as Gy.
  apply exec_sound in Hx as (wx & Ex & Lx). apply exec_sound in Hy as (wy & Ey & Ly).
  rewrite Ex in Ey. destruct (Huniq _ _ _ _ Lx Ly Ey) as [_ Hrest].
  destruct x, y; simpl in *; congruence.
Qed.

Lemma exec_mark_head {B} r (k : mstate -> list B) m t g :
  groupless r = true ->
  (forall m m' t t', lang r m -> lang r m' -> m ++ t = m' ++ t' -> m = m' /\ t = t') ->
  lang r m ->
  head (exec r (MState (m ++ t) g) ≫= k) = head (k (MState t g)).
Proof.
  intros Hg Huniq Hm.
  destruct (exec_complete r m (MState (m ++ t) g) t Hm eq_refl) as (st' & Hin & Hrest).
  assert (st' = MState t g) as ->.
  { pose proof (exec_groupless _ _ _ Hg Hin). destruct st'; simpl in *; congruence. }
  apply head_bind_constant.
  - intros E. rewrite E in Hin. by apply elem_of_nil in Hin.
  - intros y Hy. by apply (exec_deterministic r (MState (m ++ t) g)).
Qed.

Lemma exec_nil r st :
  (forall w t, rest st = w ++ t -> ~ lang r w) -> exec r st = [].
Proof.
  intros H. apply elem_of_nil_inv. intros x (w & E & L)%exec_sound. by apply (H w (rest x)).
Qed.

Lemma lang_regex w :
  lang regex w <->
  exists m1 X m2 sp Y,
    w = m1 ++ X ++ m2 ++ sp ++ Y /\
    lang ACTION_MARK m1 /\ lang INPUT_MARK m2 /\ forallb isspace sp = true.
Proof.
  unfold regex. cbn [cat lang]. split.
  - intros (m1 & ? & -> & L1 & X & ? & -> & _ & m2 & ? & -> & L2 & sp & ? & -> & Hsp
            & Y & ? & -> & _ & ->).
    exists m1, X, m2, sp, Y. by rewrite (right_id_L [] (++)).
  - intros (m1 & X & m2 & sp & Y & -> & L1 & L2 & Hsp).
    exists m1. eexists. split_and!; [done..|].
    exists X. eexists. split_and!; [done|by apply forallb_forall|].
    exists m2. eexists. split_and!; [done..|].
    exists sp. eexists. split_and!; [done..|].
    exists Y, []. split_and!; [by rewrite (right_id_L [] (++))|by apply forallb_forall|done].
Qed.

(** After the input marker: the whitespace run is taken whole and group 2
    is everything that follows. *)
Lemma exec_tail_head st :
  head (exec (cat [Star true isspace; Group 2 (Star true any_all)]) st)
  = Some (MState [] (<[2%nat := lstrip_by isspace (rest st)]> (groups st))).
Proof.
  cbn [cat exec].
  destruct (proj1 (head_Some _ _) (star_max_head isspace (rest st))) as [l1 ->].
  rewrite fmap_cons, bind_cons, head_app. cbn [rest groups].
  destruct (proj1 (head_Some _ _) (star_max_head any_all (lstrip_by isspace (rest st))))
    as [l2 ->].
  rewrite lstrip_by_any, !fmap_cons, bind_cons, head_app. cbn [rest groups length].
  by rewrite Nat.sub_0_r, firstn_all.
Qed.

(** The anchored match on an input that starts with an action marker,
    whose first input marker comes after [X]. *)
Lemma match_here_shape m1 X m2 Y :
  lang ACTION_MARK m1 -> lang INPUT_MARK m2 ->
  (forall X1 X2 w t, X = X1 ++ X2 -> X2 <> [] -> X2 ++ m2 ++ Y = w ++ t -> ~ lang INPUT_MARK w) ->
  match_here regex (m1 ++ X ++ m2 ++ Y)
  = Some (MState [] (<[2%nat := lstrip_by isspace Y]> (<[1%nat := X]> ∅))).
Proof.
  intros L1 L2 Hfirst. unfold match_here, regex.
  change (cat (ACTION_MARK :: ?rs)) with (Seq ACTION_MARK (cat rs)). cbn [exec].
  rewrite (exec_mark_head ACTION_MARK) by (done || apply action_mark_unique).
  change (cat (Group 1 ?r :: ?rs)) with (Seq (Group 1 r) (cat rs)). cbn [exec rest groups].
  rewrite <- list_fmap_compose.
  set (g := (fun st' : mstate => _) ∘ (fun s' : str => _)).
  set (k := exec _).
  assert (head (k (g (m2 ++ Y)))
          = Some (MState [] (<[2%nat := lstrip_by isspace Y]> (<[1%nat := X]> ∅)))) as Hk.
  { unfold k, g. cbn [compose rest groups].
    change (cat (INPUT_MARK :: ?rs)) with (Seq INPUT_MARK (cat rs)). cbn [exec].
    rewrite (exec_mark_head INPUT_MARK) by (done || apply input_mark_unique).
    rewrite exec_tail_head. cbn [rest groups].
    rewrite !length_app.
    replace (length X + (length m2 + length Y) - (length m2 + length Y))%nat
      with (length X) by lia.
    by rewrite take_app_length. }
  rewrite head_star_min_bind; [done| |].
  - intros X1 X2 -> HX2. unfold k.
    change (cat (INPUT_MARK :: ?rs)) with (Seq INPUT_MARK (cat rs)). cbn [exec].
    rewrite exec_nil; [done|]. intros w t Hw. by apply (Hfirst X1 X2 w t).
  - intros E. by rewrite E in Hk.
Qed.

Lemma search_skip r pre s :
  (forall i, (i < length pre)%nat -> match_here r (drop i (pre ++ s)) = None) ->
  search r (pre ++ s) = search r s.
Proof.
  induction pre as [|c pre IH]; intros H; [done|].
  pose proof (H 0%nat ltac:(simpl; lia)) as H0. simpl in H0.
  simpl. rewrite H0.
  apply IH. intros i Hi. apply (H (S i)). simpl. lia.
Qed.

Lemma search_here r s (res : mstate) :
  match_here r s = Some res -> search r s = Some res.
Proof. intros H. destruct s; simpl; by rewrite H. Qed.

Lemma search_first_shape raw pre m1 X m2 Y :
  action_shape raw pre m1 X m2 Y -> first_shape raw pre X ->
  search regex raw
  = Some (MState [] (<[2%nat := lstrip_by isspace Y]> (<[1%nat := X]> ∅))).
Proof.
  intros (-> & L1 & L2) Hfirst.
  rewrite search_skip.
  - apply search_here, match_here_shape; [done..|].
    intros X1 X2 w t -> HX2 Heq Lw.
    destruct (Hfirst pre m1 X1 w t) as [_ Hlen].
    { split_and!; [|done..]. by rewrite <- Heq, <- !(assoc_L (++)). }
    specialize (Hlen eq_refl). rewrite length_app in Hlen.
    destruct X2; [done|simpl in Hlen; lia].
  - intros i Hi.
    destruct (match_here regex (drop i (pre ++ m1 ++ X ++ m2 ++ Y))) as [res|] eqn:E; [|done].
    exfalso.
    assert (is_Some (match_here regex (drop i (pre ++ m1 ++ X ++ m2 ++ Y))))
      as (w & t & Hs & (m1' & X' & m2' & sp & Y' & -> & L1' & L2' & _)%lang_regex)%match_here_is_Some
      by (by exists res).
    destruct (Hfirst (take i pre) m1' X' m2' (sp ++ Y' ++ t)) as [Hlen _].
    { split_and!; [|done..].
      rewrite <- (take_drop i (pre ++ _)) at 1. rewrite Hs, take_app_le by lia.
      by rewrite <- !(assoc_L (++)). }
    rewrite length_take in Hlen. lia.
Qed.

Lemma least_nat (P : nat -> Prop) `{!forall n, Decision (P n)} n :
  P n -> exists k, P k /\ forall j, (j < k)%nat -> ~ P j.
Proof.
  induction (lt_wf n) as [n _ IH]. intros Hn.
  destruct (decide (Exists P (seq 0 n))) as [(j & Hj & HPj)%Exists_exists|Hnone].
  - apply elem_of_seq in Hj. apply (IH j); [lia|done].
  - exists n. split; [done|]. intros j Hj HPj. apply Hnone, Exists_exists.
    exists j. split; [apply elem_of_seq; lia|done].
Qed.

Lemma action_shape_match_here raw pre m1 X m2 Y :
  action_shape raw pre m1 X m2 Y -> is_Some (match_here regex (drop (length pre) raw)).
Proof.
  intros (-> & L1 & L2). rewrite drop_app_length. apply match_here_is_Some.
  exists (m1 ++ X ++ m2 ++ [] ++ []), Y. split.
  - by rewrite !(right_id_L [] (++)), <- !(assoc_L (++)).
  - apply lang_regex. by exists m1, X, m2, [], [].
Qed.

(** Every input with a substring in the pattern's language has a first
    reading. *)
Lemma first_shape_exists raw :
  (exists pre w post, raw = pre ++ w ++ post /\ lang regex w) ->
  exists pre m1 X m2 Y, action_shape raw pre m1 X m2 Y /\ first_shape raw pre X.
Proof.
  intros (pre0 & w0 & post0 & Hraw & Hw0).
  destruct (least_nat (fun i => is_Some (match_here regex (drop i raw))) (length pre0))
    as (i & Hi & Hleast).
  { rewrite Hraw, drop_app_length. apply match_here_is_Some. by exists w0, post0. }
  apply match_here_is_Some in Hi
    as (w & t & Hs & (m1 & X' & m2' & sp & Y' & -> & L1 & L2' & _)%lang_regex).
  set (s1 := X' ++ m2' ++ sp ++ Y' ++ t).
  assert (drop i raw = m1 ++ s1) as Hdrop
    by (rewrite Hs; unfold s1; by rewrite <- !(assoc_L (++))).
  destruct (least_nat (fun j => is_Some (match_here INPUT_MARK (drop j s1))) (length X'))
    as (j & Hj & Hshort).
  { unfold s1. rewrite drop_app_length. apply match_here_is_Some. by eexists _, _. }
  apply match_here_is_Some in Hj as (m2 & Y & Hs1 & L2).
  assert (raw = take i raw ++ m1 ++ take j s1 ++ m2 ++ Y) as Hshape.
  { by rewrite <- Hs1, take_drop, <- Hdrop, take_drop. }
  exists (take i raw), m1, (take j s1), m2, Y. split; [done|].
  intros pre' m1' X'' m2'' Y'' Hshape'.
  pose proof (action_shape_match_here _ _ _ _ _ _ Hshape') as HP.
  destruct Hshape' as (Hraw' & L1' & L2'').
  assert (i <= length pre')%nat as Hle.
  { destruct (decide (i <= length pre')%nat); [done|]. exfalso.
    apply (Hleast (length pre')); [lia|done]. }
  split; [rewrite length_take; lia|].
  intros Hlen. rewrite length_take in Hlen.
  assert (length pre' = i) as Hi' by lia.
  assert (drop i raw = m1' ++ X'' ++ m2'' ++ Y'') as Hdrop'
    by (rewrite Hraw' at 1; by rewrite <- Hi', drop_app_length).
  rewrite Hdrop in Hdrop'.
  destruct (action_mark_unique _ _ _ _ L1 L1' Hdrop') as [_ Hs1'].
  destruct (decide (j <= length X'')%nat) as [|Hgt]; [rewrite length_take; lia|].
  exfalso. apply (Hshort (length X'')); [lia|].
  rewrite Hs1', drop_app_length. apply match_here_is_Some. by exists m2'', Y''.
Qed.

(** A first reading can be recognised by running the matcher at the
    earlier positions. *)
Lemma first_shape_intro raw pre m1 X m2 Y :
  action_shape raw pre m1 X m2 Y ->
  (forall i, (i < length pre)%nat -> match_here regex (drop i raw) = None) ->
  (forall j, (j < length X)%nat -> match_here INPUT_MARK (drop j (X ++ m2 ++ Y)) = None) ->
  first_shape raw pre X.
Proof.
  intros (Hraw & L1 & L2) Hleft Hshort pre' m1' X' m2' Y' Hshape'.
  pose proof (action_shape_match_here _ _ _ _ _ _ Hshape') as [res HP].
  destruct Hshape' as (Hraw' & L1' & L2').
  assert (length pre <= length pre')%nat as Hle.
  { destruct (decide (length pre <= length pre')%nat); [done|].
    rewrite Hleft in HP by lia. done. }
  split; [done|]. intros Hlen.
  assert (m1 ++ X ++ m2 ++ Y = m1' ++ X' ++ m2' ++ Y') as Heq.
  { apply (f_equal (drop (length pre))) in Hraw. rewrite drop_app_length in Hraw.
    rewrite <- Hraw, Hraw', <- Hlen. by rewrite drop_app_length. }
  destruct (action_mark_unique _ _ _ _ L1 L1' Heq) as [_ Hs1].
  destruct (decide (length X <= length X')%nat) as [|Hgt]; [done|]. exfalso.
  assert (is_Some (match_here INPUT_MARK (drop (length X') (X ++ m2 ++ Y)))) as [res' Hres].
  { rewrite Hs1, drop_app_length. apply match_here_is_Some. by exists m2', Y'. }
  rewrite Hshort in Hres by lia. done.
Qed.

Lemma parse_first_shape raw pre m1 X m2 Y :
  contains (py "Final Answer:") raw = false ->
  action_shape raw pre m1 X m2 Y -> first_shape raw pre X ->
  parse raw =
    Return (Action (mkAction
      (strip X)
      (strip_chars [DQUOTE] (strip_chars (py " ") (lstrip_by isspace Y)))
      raw)).
Proof.
  intros Hc Hshape Hfirst. unfold parse.
  rewrite Hc, (search_first_shape _ _ _ _ _ _ Hshape Hfirst).
  unfold group. cbn [groups].
  by rewrite lookup_insert_ne, lookup_insert_eq, lookup_insert_eq.
Qed.

End ActionBranch.

(** ** Statements about the parser *)

Section ParserStatements.

Import CustomOutputParser.

(** C2, as amended.  Whenever the completion has no "Final Answer:" and
    some substring of it matches the pattern, the parser returns an
    [AgentAction] built from the first reading of the completion in the
    shape action marker, action text [X], input marker, input text [Y]:
    the tool is [X] stripped of whitespace; the tool input is [Y] without
    its leading whitespace, then without leading and trailing spaces, then
    without every leading and trailing double quote; the log is the
    completion. *)
Theorem parse_action (rawText : str) :
  contains (py "Final Answer:") rawText = false ->
  (exists pre w post, rawText = pre ++ w ++ post /\ lang regex w) ->
  exists pre m1 X m2 Y,
    action_shape rawText pre m1 X m2 Y /\
    first_shape rawText pre X /\
    parse rawText =
      Return (Action (mkAction
        (strip X)
        (strip_chars [DQUOTE] (strip_chars (py " ") (lstrip_by isspace Y)))
        rawText)).
Proof.
  intros Hc Hmatch.
  destruct (first_shape_exists rawText Hmatch) as (pre & m1 & X & m2 & Y & Hshape & Hfirst).
  exists pre, m1, X, m2, Y. split_and!; [done..|].
  by apply (parse_first_shape rawText pre m1 X m2 Y).
Qed.

Lemma search_Some_lang r s res :
  search r s = Some res -> exists pre w post, s = pre ++ w ++ post /\ lang r w.
Proof.
  intros (pre & Hm & [k ->] & _)%search_Some_inv.
  rewrite drop_app_length in Hm.
  assert (is_Some (match_here r k)) as (w & t & -> & Hw)%match_here_is_Some by by exists res.
  by exists pre, w, t.
Qed.

Lemma parse_action_witness :
  let rawText := py "Thought: look it up" ++ [NL] ++ py "Action 1: Search" ++ [NL]
                 ++ py "Action Input 1:  " ++ [DQUOTE] ++ py "shirts" ++ [DQUOTE] in
  contains (py "Final Answer:") rawText = false /\
  exists pre m1 X m2 Y,
    action_shape rawText pre m1 X m2 Y /\
    first_shape rawText pre X /\
    parse rawText =
      Return (Action (mkAction
        (strip X)
        (strip_chars [DQUOTE] (strip_chars (py " ") (lstrip_by isspace Y)))
        rawText)).
Proof.
  intros rawText. split; [reflexivity|].
  apply (parse_action rawText); [reflexivity|].
  destruct (search regex rawText) as [res|] eqn:E; [|by vm_compute in E].
  by apply (search_Some_lang regex rawText res).
Defined.

(** C2, as stated, fails: the completion below is in the shape of the
    pattern, with action text " Search" and an input text that wraps foo
    in two pairs of double quotes.  The parser strips both pairs; the
    statement promises the removal of one. *)
Lemma parse_action_one_pair_counterexample :
  let X := py " Search" in
  let Y := py " " ++ [DQUOTE; DQUOTE] ++ py "foo" ++ [DQUOTE; DQUOTE] in
  let rawText := py "Action:" ++ X ++ (NL :: py "Action Input:") ++ Y in
  contains (py "Final Answer:") rawText = false /\
  action_shape rawText [] (py "Action:") X (NL :: py "Action Input:") Y /\
  first_shape rawText [] X /\
  parse rawText = Return (Action (mkAction (py "Search") (py "foo") rawText)) /\
  spec_tool_input Y = [DQUOTE] ++ py "foo" ++ [DQUOTE] /\
  parse rawText <> Return (Action (mkAction (strip X) (spec_tool_input Y) rawText)).
Proof.
  intros X Y rawText.
  assert (action_shape rawText [] (py "Action:") X (NL :: py "Action Input:") Y) as Hshape.
  { split_and!; [done| |].
    - apply lang_ACTION_MARK. by exists [], [], [].
    - apply lang_INPUT_MARK. by exists (py " "), [], [], [], [], []. }
  split_and!; [reflexivity|done| |by vm_compute..].
  apply (first_shape_intro _ _ _ _ _ _ Hshape).
  - simpl. lia.
  - intros j Hj. do 7 (destruct j as [|j]; [by vm_compute|]). simpl in Hj. lia.
Qed.

(** The pattern's whitespace run takes a leading tab of the input text,
    while a trailing newline, which is not a space, stays. *)
Lemma parse_action_whitespace_example :
  parse (py "Action: x" ++ [NL] ++ py "Action Input: " ++ [9] ++ py "foo" ++ [NL])
  = Return (Action (mkAction (py "x") (py "foo" ++ [NL])
      (py "Action: x" ++ [NL] ++ py "Action Input: " ++ [9] ++ py "foo" ++ [NL]))).
Proof. by vm_compute. Qed.

(** C3.  A completion that contains neither "Final Answer:" nor any
    substring matching the pattern makes the parser raise an error whose
    message carries the completion; no action or finish is returned. *)
Theorem parse_failure (rawText : str) :
  contains (py "Final Answer:") rawText = false ->
  (forall pre w post, rawText = pre ++ w ++ post -> ~ lang regex w) ->
  parse rawText =
    Raise (ValueError (py "Could not parse LLM output: `" ++ rawText ++ py "`")).
Proof.
  intros Hc Hno. unfold parse. rewrite Hc.
  by rewrite (proj2 (search_None_lang regex rawText) Hno).
Qed.

Lemma parse_failure_witness :
  let rawText := py "Action: Search" ++ [NL] ++ py "Input: shirts" in
  contains (py "Final Answer:") rawText = false /\
  (forall pre w post, rawText = pre ++ w ++ post -> ~ lang regex w) /\
  parse rawText =
    Raise (ValueError (py "Could not parse LLM output: `" ++ rawText ++ py "`")).
Proof.
  intros rawText.
  assert (forall pre w post, rawText = pre ++ w ++ post -> ~ lang regex w) as Hno
    by (apply search_None_lang; by vm_compute).
  split_and!; [reflexivity|done|].
  apply (parse_failure rawText); [reflexivity|done].
Defined.

(** An empty action text, in general: an action marker immediately
    followed by an input marker yields the empty tool name. *)
Lemma parse_action_empty_text (m1 m2 Y : str) :
  lang ACTION_MARK m1 -> lang INPUT_MARK m2 ->
  contains (py "Final Answer:") (m1 ++ m2 ++ Y) = false ->
  parse (m1 ++ m2 ++ Y) =
    Return (Action (mkAction
      []
      (strip_chars [DQUOTE] (strip_chars (py " ") (lstrip_by isspace Y)))
      (m1 ++ m2 ++ Y))).
Proof.
  intros L1 L2 Hc.
  apply (parse_first_shape (m1 ++ m2 ++ Y) [] m1 [] m2 Y Hc); [done|].
  intros pre' m1' X' m2' Y' _. simpl. lia.
Qed.

(** C10.  The completion made of "Action:", a newline and "Action Input:
    foo" is parsed into an [AgentAction] whose tool is the empty string and
    whose tool input is foo: the parser accepts an empty action text. *)
Theorem parse_empty_action :
  let rawText := py "Action:" ++ [NL] ++ py "Action Input: foo" in
  parse rawText = Return (Action (mkAction [] (py "foo") rawText)).
Proof. by vm_compute. Qed.

End ParserStatements.

(** ** Statements about the prompt template *)

Section PromptStatements.

Import CustomPromptTemplate.

Lemma template_fields :
  template =
    template_before_tools ++ py "{tools}" ++
    template_before_tool_names ++ py "{tool_names}" ++
    template_before_input ++ py "{input}" ++
    template_before_scratchpad ++ py "{agent_scratchpad}".
Proof. reflexivity. Qed.

Lemma foldl_add_thought (steps : transcript) (thoughts : str) :
  foldl add_thought thoughts steps = thoughts ++ concat (scratchpad_entry <$> steps).
Proof.
  revert thoughts. induction steps as [|step steps IH]; intros thoughts; simpl.
  - by rewrite (right_id_L [] (++)).
  - rewrite IH. unfold add_thought, scratchpad_entry.
    by rewrite <- !(assoc_L (++)).
Qed.

Lemma str_format_template_scan (v_input v_pad v_tools v_names : str) :
  str_format template
    (<[py "tool_names" := v_names]>
       (<[py "tools" := v_tools]>
          (<[py "agent_scratchpad" := v_pad]> {[ py "input" := v_input ]})))
  = Return (template_before_tools ++ v_tools ++
            template_before_tool_names ++ v_names ++
            template_before_input ++ v_input ++
            template_before_scratchpad ++ v_pad ++ []).
Proof. vm_compute. reflexivity. Qed.

Lemma str_format_template (v_input v_pad v_tools v_names : str) :
  str_format template
    (<[py "tool_names" := v_names]>
       (<[py "tools" := v_tools]>
          (<[py "agent_scratchpad" := v_pad]> {[ py "input" := v_input ]})))
  = Return (template_before_tools ++ v_tools ++
            template_before_tool_names ++ v_names ++
            template_before_input ++ v_input ++
            template_before_scratchpad ++ v_pad).
Proof. by rewrite str_format_template_scan, (right_id_L [] (++)). Qed.

Lemma format_kwargs_Return (tools_getter : str -> result (list Tool)) query steps tools :
  tools_getter query = Return tools ->
  format_kwargs tools_getter query steps =
    Return (<[py "tool_names" := join (py ", ") (name <$> tools)]>
              (<[py "tools" := join [NL] (tool_line <$> tools)]>
                 (<[py "agent_scratchpad" := concat (scratchpad_entry <$> steps)]>
                    {[ py "input" := query ]}))).
Proof.
  intros Hg. unfold format_kwargs, getitem.
  rewrite lookup_insert_ne by done. rewrite lookup_singleton_eq.
  cbn [mbind result_bind]. rewrite Hg. cbn [mbind result_bind].
  by rewrite foldl_add_thought.
Qed.

Lemma format_Return (tools_getter : str -> result (list Tool)) query steps tools :
  tools_getter query = Return tools ->
  format tools_getter query steps = Return (rendered tools query steps).
Proof.
  intros Hg. unfold format.
  rewrite (format_kwargs_Return _ _ _ _ Hg). cbn [mbind result_bind].
  apply str_format_template.
Qed.

(** C7.  With the tool list that the getter returns for the query, the
    prompt is the template with its four fields replaced by: the tools'
    "name: description" lines joined by newlines, the tool names joined by
    a comma and a space, the query, and the concatenation, in order, of
    every transcript entry's log followed by the observation and thought
    markers.  It depends on the getter only through that tool list. *)
Theorem format_renders
    (tools_getter : str -> result (list Tool)) (query : str) (steps : transcript)
    (tools : list Tool) :
  tools_getter query = Return tools ->
  format tools_getter query steps = Return (rendered tools query steps) /\
  forall other_getter,
    other_getter query = Return tools ->
    format other_getter query steps = format tools_getter query steps.
Proof.
  intros Hg. split; [by apply format_Return|].
  intros other Hother. by rewrite !(format_Return _ _ _ tools).
Qed.

Lemma format_renders_witness :
  let tools := [mkTool (py "search") (py "finds products")] in
  let getter := fun _ : str => Return tools in
  let steps := [(mkAction (py "search") (py "shirts") (py "Action: search"), py "3 shirts")] in
  getter (py "What shirts can I buy?") = Return tools /\
  (format getter (py "What shirts can I buy?") steps
     = Return (rendered tools (py "What shirts can I buy?") steps) /\
   forall other_getter,
     other_getter (py "What shirts can I buy?") = Return tools ->
     format other_getter (py "What shirts can I buy?") steps
     = format getter (py "What shirts can I buy?") steps).
Proof.
  intros tools getter steps. split; [reflexivity|].
  exact (format_renders getter (py "What shirts can I buy?") steps tools eq_refl).
Defined.

(** C4.  The getter is consulted at the query bound to [input] and nowhere
    else, so the tools and the tool names placed in the prompt are the
    same for every transcript of a run: any two calls of [format] for the
    query, whatever their transcripts, render the tool list that the getter
    returns for the query, and a getter that agrees with it at the query
    gives the same keyword arguments. *)
Theorem format_tools_fixed
    (tools_getter : str -> result (list Tool)) (query : str) (steps steps' : transcript)
    (kwargs kwargs' : gmap str str) :
  format_kwargs tools_getter query steps = Return kwargs ->
  format_kwargs tools_getter query steps' = Return kwargs' ->
  (exists tools,
      tools_getter query = Return tools /\
      kwargs !! py "tool_names" = Some (join (py ", ") (name <$> tools)) /\
      kwargs' !! py "tool_names" = Some (join (py ", ") (name <$> tools)) /\
      kwargs !! py "tools" = kwargs' !! py "tools" /\
      kwargs !! py "input" = Some query /\ kwargs' !! py "input" = Some query /\
      format tools_getter query steps = Return (rendered tools query steps) /\
      format tools_getter query steps' = Return (rendered tools query steps')) /\
  (forall other_getter,
      other_getter query = tools_getter query ->
      format_kwargs other_getter query steps' = Return kwargs').
Proof.
  intros Hk Hk'.
  destruct (tools_getter query) as [tools|e] eqn:Hg.
  2:{ unfold format_kwargs, getitem in Hk.
      rewrite lookup_insert_ne in Hk by done. rewrite lookup_singleton_eq in Hk.
      cbn [mbind result_bind] in Hk. rewrite Hg in Hk. done. }
  rewrite (format_kwargs_Return _ _ _ _ Hg) in Hk.
  rewrite (format_kwargs_Return _ _ _ _ Hg) in Hk'.
  injection Hk as <-. injection Hk' as <-. split.
  - exists tools. split_and!; [done..| |]; by apply format_Return.
  - intros other Hother. by rewrite (format_kwargs_Return _ _ _ tools Hother).
Qed.

Lemma format_tools_fixed_witness :
  let tools := [mkTool (py "search") (py "finds products"); mkTool (py "speak") (py "translates")] in
  let getter := fun _ : str => Return tools in
  let query := py "What shirts can I buy?" in
  let steps' := [(mkAction (py "search") (py "shirts") (py "Action: search"), py "3 shirts")] in
  exists kwargs kwargs',
    format_kwargs getter query [] = Return kwargs /\
    format_kwargs getter query steps' = Return kwargs' /\
    kwargs !! py "tool_names" = kwargs' !! py "tool_names" /\
    kwargs' !! py "tool_names" = Some (py "search, speak").
Proof.
  intros tools getter query steps'.
  pose proof (format_kwargs_Return getter query [] tools eq_refl) as Hk.
  pose proof (format_kwargs_Return getter query steps' tools eq_refl) as Hk'.
  eexists _, _.
  destruct (format_tools_fixed getter query [] steps' _ _ Hk Hk')
    as [(tools' & Hg & H1 & H2 & _) _].
  injection Hg as <-.
  split_and!; [exact Hk|exact Hk'|by rewrite H1, H2|exact H2].
Defined.

End PromptStatements.

(** ** Statements about the similarity index and tool selection *)

Section IndexStatements.

Import SimilarityIndex.

Variable distance : str -> str -> N.

#[local] Instance nearer_transitive text : Transitive (nearer distance text).
Proof. unfold nearer. intros d1 d2 d3. lia. Qed.

#[local] Instance nearer_total text : Total (nearer distance text).
Proof. unfold nearer. intros d1 d2. lia. Qed.

Lemma query_sorted_split index text k :
  let ranked := merge_sort (nearer distance text) index in
  StronglySorted (nearer distance text) (take k ranked ++ drop k ranked) /\
  take k ranked ++ drop k ranked ≡ₚ index.
Proof.
  intros ranked. rewrite take_drop. split.
  - apply StronglySorted_merge_sort; apply _.
  - apply merge_sort_Permutation.
Qed.

(** C8.  The lookup returns indexed documents only, as many as [k] allows,
    ordered nearest first, and none of the documents left out is nearer to
    the query than a returned one; the retriever asks for 4; and the index
    that [get_tools] reads holds one document per fetched manifest, its
    description as content and its name as identifier. *)
Theorem query_nearest (index : list Document) (text : str) (k : nat) :
  let found := query distance index text k in
  StronglySorted (nearer distance text) found /\
  length found = min k (length index) /\
  (exists others,
      found ++ others ≡ₚ index /\
      forall d d', d ∈ found -> d' ∈ others -> nearer distance text d d') /\
  get_relevant_documents distance index text = query distance index text 4 /\
  (forall plugins : list AIPlugin,
      page_content <$> vector_store plugins = description_for_model <$> plugins /\
      (fun d => metadata d !! py "plugin_name") <$> vector_store plugins
      = (fun plugin => Some (name_for_model plugin)) <$> plugins).
Proof.
  intros res. unfold res, query.
  destruct (query_sorted_split index text k) as [Hsorted Hperm].
  apply StronglySorted_app in Hsorted as (Hcross & Htake & _).
  split_and!; [done| |by eexists|done|].
  - by rewrite length_take, (Permutation_length (merge_sort_Permutation _ index)).
  - intros plugins. unfold vector_store, build, docs. rewrite <- !list_fmap_compose.
    split; [done|]. apply list_fmap_ext. intros i plugin _. simpl.
    by rewrite lookup_singleton_eq.
Qed.

Lemma query_all index text k :
  (length index <= k)%nat -> query distance index text k ≡ₚ index.
Proof.
  intros Hk. unfold query. rewrite take_ge.
  - apply merge_sort_Permutation.
  - by rewrite (Permutation_length (merge_sort_Permutation _ index)).
Qed.

End IndexStatements.

Section ToolStatements.

Variable distance : str -> str -> N.
Variable from_llm_and_ai_plugin : AIPlugin -> NLAToolkit.

Implicit Types (plugins : list AIPlugin) (d : gmap str NLAToolkit).

Lemma comprehension_Return {A B} (f : A -> result B) (g : A -> B) (l : list A) :
  (forall x, x ∈ l -> f x = Return (g x)) -> comprehension f l = Return (g <$> l).
Proof.
  induction l as [|x l IH]; intros H; simpl; [done|].
  rewrite (H x) by left. cbn [mbind result_bind].
  rewrite IH by (intros y Hy; apply H; by right). done.
Qed.

Lemma comprehension_length {A B} (f : A -> result B) (l : list A) (l' : list B) :
  comprehension f l = Return l' -> length l' = length l.
Proof.
  revert l'. induction l as [|x l IH]; intros l'; simpl; [by intros [= <-]|].
  destruct (f x) as [y|]; [|done]. cbn [mbind result_bind].
  destruct (comprehension f l) as [ys|]; [|done]. cbn [mbind result_bind].
  intros [= <-]. simpl. by rewrite (IH ys).
Qed.

Lemma foldl_extend (tool_kits : list NLAToolkit) (tools : list Tool) :
  foldl (fun tools tk => tools ++ nla_tools tk) tools tool_kits
  = tools ++ (tool_kits ≫= nla_tools).
Proof.
  revert tools. induction tool_kits as [|tk tks IH]; intros tools.
  - simpl. by rewrite (right_id_L [] (++)).
  - rewrite bind_cons. simpl. by rewrite IH, (assoc_L (++)).
Qed.

Lemma foldl_insert_toolkit_other plugins d key :
  key ∉ name_for_model <$> plugins ->
  foldl (insert_toolkit from_llm_and_ai_plugin) d plugins !! key = d !! key.
Proof.
  revert d. induction plugins as [|p plugins IH]; intros d Hkey; simpl; [done|].
  rewrite fmap_cons, not_elem_of_cons in Hkey. destruct Hkey as [Hne Hkey].
  rewrite IH by done. unfold insert_toolkit. by rewrite lookup_insert_ne.
Qed.

Lemma foldl_insert_toolkit_is_Some plugins d p :
  p ∈ plugins ->
  is_Some (foldl (insert_toolkit from_llm_and_ai_plugin) d plugins !! name_for_model p).
Proof.
  revert d p. induction plugins as [|p' plugins IH]; intros d p Hp; simpl;
    [by apply elem_of_nil in Hp|].
  apply elem_of_cons in Hp as [->|Hin]; [|by apply IH].
  destruct (decide (name_for_model p' ∈ name_for_model <$> plugins)) as [Hdup|Hfresh].
  - apply list_elem_of_fmap in Hdup as (p'' & Heq & Hp''). rewrite Heq. by apply IH.
  - rewrite foldl_insert_toolkit_other by done.
    unfold insert_toolkit. rewrite lookup_insert_eq. by eexists.
Qed.

Lemma foldl_insert_toolkit_NoDup plugins d p :
  NoDup (name_for_model <$> plugins) -> p ∈ plugins ->
  foldl (insert_toolkit from_llm_and_ai_plugin) d plugins !! name_for_model p
  = Some (from_llm_and_ai_plugin p).
Proof.
  revert d. induction plugins as [|p' plugins IH]; intros d Hnodup Hp; simpl;
    [by apply elem_of_nil in Hp|].
  rewrite fmap_cons in Hnodup. apply NoDup_cons in Hnodup as [Hfresh Hnodup].
  apply elem_of_cons in Hp as [->|Hp]; [|by apply IH].
  rewrite foldl_insert_toolkit_other by done.
  unfold insert_toolkit. by rewrite lookup_insert_eq.
Qed.

Lemma toolkit_lookup plugins doc :
  doc ∈ docs plugins ->
  (plugin_name ← getitem (metadata doc) (py "plugin_name");
   getitem (toolkits_dict from_llm_and_ai_plugin plugins) plugin_name)
  = Return (toolkit_for from_llm_and_ai_plugin plugins doc).
Proof.
  intros (p & -> & Hp)%list_elem_of_fmap. unfold toolkit_for, getitem. cbn [metadata].
  rewrite lookup_singleton_eq. cbn [mbind result_bind option_bind].
  destruct (foldl_insert_toolkit_is_Some plugins ∅ p Hp) as [tk Htk].
  unfold toolkits_dict. by rewrite Htk.
Qed.

Lemma get_tools_all plugins query :
  (length plugins <= SimilarityIndex.DEFAULT_K)%nat ->
  exists tools,
    get_tools distance from_llm_and_ai_plugin plugins query = Return tools /\
    tools ≡ₚ docs plugins ≫= (nla_tools ∘ toolkit_for from_llm_and_ai_plugin plugins).
Proof.
  intros Hk. unfold get_tools, SimilarityIndex.get_relevant_documents, vector_store,
    SimilarityIndex.build.
  pose proof (query_all distance (docs plugins) query SimilarityIndex.DEFAULT_K) as Hall.
  unfold docs at 1 in Hall. rewrite length_fmap in Hall. specialize (Hall Hk).
  set (found := SimilarityIndex.query distance (docs plugins) query SimilarityIndex.DEFAULT_K)
    in Hall |- *.
  rewrite (comprehension_Return _ (toolkit_for from_llm_and_ai_plugin plugins)).
  - cbn [mbind result_bind]. eexists. split; [done|].
    rewrite foldl_extend. simpl. rewrite list_fmap_bind. by rewrite Hall.
  - intros doc Hdoc. apply toolkit_lookup. by rewrite <- Hall.
Qed.

(** C9, as amended.  Three manifests are fetched and the retriever asks for
    four documents, so every query retrieves every plugin: for any two
    queries [get_tools] returns the same tools up to order.  They are, for
    each of the three plugins, the tools of the toolkit that
    [toolkits_dict] holds under the plugin's name; when the plugin names are
    distinct these are the tools of all the plugins' toolkits. *)
Theorem get_tools_query_independent
    (from_url : str -> result AIPlugin) (plugins : list AIPlugin) (query1 query2 : str) :
  comprehension from_url urls = Return plugins ->
  exists tools1 tools2,
    get_tools distance from_llm_and_ai_plugin plugins query1 = Return tools1 /\
    get_tools distance from_llm_and_ai_plugin plugins query2 = Return tools2 /\
    tools1 ≡ₚ tools2 /\
    length plugins = 3%nat /\
    tools1 ≡ₚ docs plugins ≫= (nla_tools ∘ toolkit_for from_llm_and_ai_plugin plugins) /\
    (NoDup (name_for_model <$> plugins) ->
     forall t, t ∈ tools1 <->
               exists p, p ∈ plugins /\ t ∈ nla_tools (from_llm_and_ai_plugin p)).
Proof.
  intros Hfetch. apply comprehension_length in Hfetch.
  assert (length plugins <= SimilarityIndex.DEFAULT_K)%nat as Hk
    by (rewrite Hfetch; vm_compute; lia).
  destruct (get_tools_all plugins query1 Hk) as (tools1 & H1 & P1).
  destruct (get_tools_all plugins query2 Hk) as (tools2 & H2 & P2).
  exists tools1, tools2. split_and!; [done|done|by rewrite P1, P2|done|done|].
  intros Hnodup t. rewrite P1, list_elem_of_bind. unfold docs. split.
  - intros (doc & Ht & (p & -> & Hp)%list_elem_of_fmap). exists p. split; [done|].
    revert Ht. unfold toolkit_for, toolkits_dict, compose. cbn [metadata].
    rewrite lookup_singleton_eq. cbn [mbind option_bind].
    by rewrite foldl_insert_toolkit_NoDup.
  - intros (p & Hp & Ht). eexists. split; [|apply list_elem_of_fmap; by exists p].
    unfold toolkit_for, toolkits_dict, compose. cbn [metadata].
    rewrite lookup_singleton_eq. cbn [mbind option_bind].
    by rewrite foldl_insert_toolkit_NoDup.
Qed.

End ToolStatements.

Lemma get_tools_query_independent_witness :
  let plugins :=
    [ mkPlugin (py "https://api.speak.com/.well-known/ai-plugin.json")
        (py "manifest fetched from https://api.speak.com/.well-known/ai-plugin.json");
      mkPlugin (py "https://www.klarna.com/.well-known/ai-plugin.json")
        (py "manifest fetched from https://www.klarna.com/.well-known/ai-plugin.json");
      mkPlugin (py "https://schooldigger.com/.well-known/ai-plugin.json")
        (py "manifest fetched from https://schooldigger.com/.well-known/ai-plugin.json") ] in
  let query1 := py "What shirts can I buy?" in
  let query2 := py "What is the best School in San Francisco, CA?" in
  comprehension example_from_url urls = Return plugins /\
  exists tools1 tools2,
    get_tools example_distance example_toolkit plugins query1 = Return tools1 /\
    get_tools example_distance example_toolkit plugins query2 = Return tools2 /\
    tools1 ≡ₚ tools2 /\
    length plugins = 3%nat /\
    tools1 ≡ₚ docs plugins ≫= (nla_tools ∘ toolkit_for example_toolkit plugins) /\
    (NoDup (name_for_model <$> plugins) ->
     forall t, t ∈ tools1 <-> exists p, p ∈ plugins /\ t ∈ nla_tools (example_toolkit p)).
Proof.
  intros plugins query1 query2. split; [reflexivity|].
  apply (get_tools_query_independent example_distance example_toolkit example_from_url
           plugins query1 query2).
  reflexivity.
Defined.

(** C9, as first stated, fails when two manifests declare the same name.
    With the first two of the three plugins both named [shop], the
    dictionary keeps the second one's toolkit under that name: [get_tools]
    returns that toolkit's tool twice and never the tool of the first
    plugin, so its result is not the union of the three toolkits. *)
Lemma get_tools_union_counterexample :
  let speak := mkPlugin (py "shop")
                 (py "manifest fetched from https://api.speak.com/.well-known/ai-plugin.json") in
  let klarna := mkPlugin (py "shop")
                  (py "manifest fetched from https://www.klarna.com/.well-known/ai-plugin.json") in
  let schooldigger :=
    mkPlugin (py "SchoolDigger")
      (py "manifest fetched from https://schooldigger.com/.well-known/ai-plugin.json") in
  let plugins := [speak; klarna; schooldigger] in
  let speak_tool := mkTool (name_for_model speak) (description_for_model speak) in
  let klarna_tool := mkTool (name_for_model klarna) (description_for_model klarna) in
  let schooldigger_tool :=
    mkTool (name_for_model schooldigger) (description_for_model schooldigger) in
  let tools := [klarna_tool; klarna_tool; schooldigger_tool] in
  comprehension example_shared_name_from_url urls = Return plugins /\
  get_tools example_distance example_toolkit plugins (py "What shirts can I buy?")
    = Return tools /\
  speak ∈ plugins /\
  speak_tool ∈ nla_tools (example_toolkit speak) /\
  (speak_tool ∉ tools) /\
  ~ (forall t, t ∈ tools <-> exists p, p ∈ plugins /\ t ∈ nla_tools (example_toolkit p)).
Proof.
  intros speak klarna schooldigger plugins speak_tool klarna_tool schooldigger_tool tools.
  assert (speak_tool ∉ tools) as Hmissing.
  { intros Hin. vm_compute in Hin.
    repeat (apply elem_of_cons in Hin as [Hin|Hin]; [discriminate Hin|]).
    by apply elem_of_nil in Hin. }
  assert (speak_tool ∈ nla_tools (example_toolkit speak)) as Htool
    by apply list_elem_of_here.
  split_and!; [by vm_compute|by vm_compute|apply list_elem_of_here|done|done|].
  intros Hunion. apply Hmissing, Hunion. exists speak. split; [apply list_elem_of_here|done].
Qed.

(** ** Statements about the orchestration loop *)

Section LoopStatements.

Import AgentExecutor.

Variable tools_getter : str -> result (list Tool).
Variable tools : list Tool.
Variable llm : nat -> str -> result str.
Variable run_tool : Tool -> str -> result str.
Variable return_stopped_response : transcript -> str.
Variable user_query : str.

Abbreviation step' := (step tools_getter tools llm run_tool return_stopped_response user_query).
Abbreviation steps_from' :=
  (steps_from tools_getter tools llm run_tool return_stopped_response user_query).

Lemma step_inv s : loop_inv return_stopped_response s -> loop_inv return_stopped_response (step' s).
Proof.
  unfold loop_inv, step. destruct s as [ph st it ps]; cbn [loop_phase loop_steps iterations prompts].
  destruct ph as [|completion|answer|output|e]; [| |done..].
  - intros [Hlen Hit]. case_decide; cbn [loop_phase loop_steps iterations prompts].
    + split_and!; [lia|lia|done].
    + destruct (CustomPromptTemplate.format _ _ _) as [prompt|e];
        cbn [loop_phase loop_steps iterations prompts]; [|lia].
      destruct (llm _ _); cbn [loop_phase loop_steps iterations prompts];
        rewrite ?length_app; simpl; lia.
  - intros [Hlen Hit].
    destruct (CustomOutputParser.parse completion) as [[a|f]|e];
      cbn [loop_phase loop_steps iterations prompts]; [| |lia].
    + destruct (lookup_tool tools (tool a)) as [t|];
        cbn [loop_phase loop_steps iterations prompts]; [|lia].
      destruct (run_tool t (tool_input a));
        cbn [loop_phase loop_steps iterations prompts]; lia.
    + destruct (getitem _ _); cbn [loop_phase loop_steps iterations prompts]; lia.
Qed.

Lemma step_fuel s :
  loop_inv return_stopped_response s -> terminal s = false ->
  (fuel_left (step' s) < fuel_left s)%nat.
Proof.
  unfold loop_inv, fuel_left, terminal, step.
  destruct s as [ph st it ps]; cbn [loop_phase loop_steps iterations prompts].
  destruct ph as [|completion|answer|output|e]; [| |done..].
  - intros [Hlen Hit] _. case_decide; cbn [loop_phase loop_steps iterations prompts]; [lia|].
    destruct (CustomPromptTemplate.format _ _ _) as [prompt|e];
      cbn [loop_phase loop_steps iterations prompts]; [|lia].
    destruct (llm _ _); cbn [loop_phase loop_steps iterations prompts]; lia.
  - intros [Hlen Hit] _.
    destruct (CustomOutputParser.parse completion) as [[a|f]|e];
      cbn [loop_phase loop_steps iterations prompts]; [| |lia].
    + destruct (lookup_tool tools (tool a)) as [t|];
        cbn [loop_phase loop_steps iterations prompts]; [|lia].
      destruct (run_tool t (tool_input a));
        cbn [loop_phase loop_steps iterations prompts]; lia.
    + destruct (getitem _ _); cbn [loop_phase loop_steps iterations prompts]; lia.
Qed.

Lemma step_terminal s : terminal s = true -> step' s = s.
Proof. unfold terminal, step. by destruct (loop_phase s). Qed.

Lemma steps_from_terminal n s : terminal s = true -> steps_from' n s = s.
Proof. intros H. induction n as [|n IH]; simpl; [done|]. by rewrite step_terminal. Qed.

Lemma steps_from_inv n s :
  loop_inv return_stopped_response s -> loop_inv return_stopped_response (steps_from' n s).
Proof. revert s. induction n as [|n IH]; intros s H; simpl; [done|]. by apply IH, step_inv. Qed.

Lemma steps_from_enough n s :
  loop_inv return_stopped_response s -> (fuel_left s <= n)%nat -> terminal (steps_from' n s) = true.
Proof.
  revert s. induction n as [|n IH]; intros s Hinv Hfuel; simpl.
  - unfold loop_inv in Hinv. unfold fuel_left in Hfuel. unfold terminal.
    destruct (loop_phase s); [lia|lia|done..].
  - destruct (terminal s) eqn:Hterm.
    + rewrite step_terminal by done. by rewrite steps_from_terminal.
    + apply IH; [by apply step_inv|]. pose proof (step_fuel s Hinv Hterm). lia.
Qed.

Abbreviation run' := (run tools_getter tools llm run_tool return_stopped_response user_query).

(** C6.  Whatever the model, the tools and the query, the run reaches a
    terminal state within the 7 transitions that the cap of 3 allows and
    stays there; at most 3 prompts are sent, that is, at most 3
    Thinking-to-Acting cycles are performed; and a run that completes 3
    cycles without finishing ends in the stopped state, whose outcome is the
    returned best-effort output, not an error. *)
Theorem run_within_cap (fuel : nat) :
  (2 * max_iterations + 1 <= fuel)%nat ->
  terminal (run' fuel) = true /\
  run' fuel = run' (2 * max_iterations + 1) /\
  (length (prompts (run' fuel)) <= 3)%nat /\
  (iterations (run' fuel) <= 3)%nat /\
  (exists res, outcome (run' fuel) = Some res) /\
  (iterations (run' fuel) = 3%nat ->
   loop_phase (run' fuel) = Stopped (return_stopped_response (loop_steps (run' fuel))) /\
   outcome (run' fuel) = Some (Return (return_stopped_response (loop_steps (run' fuel))))).
Proof.
  intros Hfuel.
  assert (loop_inv return_stopped_response (initial : loop_state)) as Hinit
    by (unfold loop_inv, initial, max_iterations; cbn [loop_phase prompts iterations length]; lia).
  assert (fuel_left initial = 2 * max_iterations + 1)%nat as Hleft by done.
  assert (forall n, (2 * max_iterations + 1 <= n)%nat ->
                    run' n = run' (2 * max_iterations + 1)) as Hstable.
  { intros n Hn. unfold run.
    replace n with ((2 * max_iterations + 1) + (n - (2 * max_iterations + 1)))%nat at 1 by lia.
    generalize (n - (2 * max_iterations + 1))%nat as extra. intros extra.
    assert (forall a b s, steps_from' (a + b) s = steps_from' b (steps_from' a s)) as Hadd.
    { intros a b. induction a as [|a IH]; intros s; [done|]. simpl. apply IH. }
    rewrite Hadd. apply steps_from_terminal, steps_from_enough; [done|lia]. }
  assert (loop_inv return_stopped_response (run' fuel)) as Hinv by (by apply steps_from_inv).
  assert (terminal (run' fuel) = true) as Hterm by (apply steps_from_enough; [done|lia]).
  pose proof (Hstable fuel Hfuel) as Hfinal.
  revert Hinv Hterm Hfinal. generalize (run' fuel). intros final Hinv Hterm Hfinal.
  split_and!; [done|done|..].
  - unfold loop_inv, max_iterations in Hinv. destruct (loop_phase final); lia.
  - unfold loop_inv, max_iterations in Hinv. destruct (loop_phase final); lia.
  - unfold terminal in Hterm. unfold outcome. destruct (loop_phase final); by eauto.
  - intros Hit. unfold loop_inv, max_iterations in Hinv. unfold terminal in Hterm.
    unfold outcome. destruct (loop_phase final); try done; try lia.
    by destruct Hinv as (_ & _ & ->).
Qed.

(** Every prompt of a run is the template rendered with the tools that the
    getter returns for the user's query, whatever the transcript at the time. *)
Lemma run_prompts_rendered (selected : list Tool) (fuel : nat) :
  tools_getter user_query = Return selected ->
  forall prompt,
    prompt ∈ prompts (run' fuel) ->
    exists steps, prompt = rendered selected user_query steps.
Proof.
  intros Hg.
  set (P := fun s : loop_state =>
              forall prompt, prompt ∈ prompts s ->
                             exists steps, prompt = rendered selected user_query steps).
  assert (forall s, P s -> P (step' s)) as Hstep.
  { intros s Hs. unfold step.
    destruct (loop_phase s) as [|completion|answer|output|e]; [| |done..].
    - case_decide; [done|].
      rewrite (format_Return tools_getter user_query (loop_steps s) selected Hg).
      assert (forall ph, P (mkLoop ph (loop_steps s) (iterations s)
                   (prompts s ++ [rendered selected user_query (loop_steps s)]))) as Hnew.
      { intros ph prompt [Hold| ->%list_elem_of_singleton]%elem_of_app;
          [by apply Hs|by eexists]. }
      destruct (llm _ _); apply Hnew.
    - destruct (CustomOutputParser.parse completion) as [[a|f]|e]; [| |done].
      + destruct (lookup_tool tools (tool a)) as [t|]; [|done].
        by destruct (run_tool t (tool_input a)).
      + by destruct (getitem _ _). }
  assert (forall n s, P s -> P (steps_from' n s)) as Hsteps.
  { intros n. induction n as [|n IH]; intros s Hs; simpl; [done|]. by apply IH, Hstep. }
  apply Hsteps. intros prompt Hin. by apply elem_of_nil in Hin.
Qed.

End LoopStatements.

Lemma run_within_cap_witness :
  (2 * max_iterations + 1 <= 7)%nat /\
  (AgentExecutor.terminal (example_run 7) = true /\
   example_run 7 = example_run (2 * max_iterations + 1) /\
   (length (prompts (example_run 7)) <= 3)%nat /\
   (iterations (example_run 7) <= 3)%nat /\
   (exists res, AgentExecutor.outcome (example_run 7) = Some res) /\
   (iterations (example_run 7) = 3%nat ->
    loop_phase (example_run 7) = Stopped (example_stopped (loop_steps (example_run 7))) /\
    AgentExecutor.outcome (example_run 7)
    = Some (Return (example_stopped (loop_steps (example_run 7)))))).
Proof.
  assert (2 * max_iterations + 1 <= 7)%nat as Hfuel by (vm_compute; lia).
  split; [exact Hfuel|].
  exact (run_within_cap example_getter example_tools example_llm example_run_tool
           example_stopped (py "What shirts can I buy?") 7 Hfuel).
Defined.

Lemma example_run_stops_at_cap :
  loop_phase (example_run 7)
  = Stopped (py "Agent stopped due to iteration limit or time limit.") /\
  length (prompts (example_run 7)) = 3%nat /\
  length (loop_steps (example_run 7)) = 3%nat.
Proof. vm_compute. done. Qed.

(** ** Statements about the submission form *)

Section FormStatements.

Variable generate_response : str -> str -> result str.


End FormStatements.


(** The accepted case of the same scenario: one call, with the key and the
    query entered. *)
Lemma submit_accepted_example :
  let entered := mkInput (py "hello") (py "sk-123") true in
  main_script example_generate_response entered
  = mkPage false false [(py "sk-123", py "hello")]
      [py "Here is my response:"; py "You can buy three shirts."] None.
Proof. by vm_compute. Qed.

(** ** Further properties of the string operations *)

Section StripFacts.

Implicit Types (p : N -> bool) (s r : str) (c : N).

Lemma lstrip_by_head p s c : head (lstrip_by p s) = Some c -> p c = false.
Proof.
  induction s as [|a s IH]; simpl; [done|].
  destruct (p a) eqn:Ha; [done|]. by intros [= <-].
Qed.

Lemma lstrip_by_suffix p s : exists k, s = k ++ lstrip_by p s.
Proof.
  induction s as [|a s [k IH]]; simpl; [by exists []|].
  destruct (p a); [|by exists []]. exists (a :: k). simpl. by rewrite <- IH.
Qed.

Lemma lstrip_by_last p s c : last (lstrip_by p s) = Some c -> last s = Some c.
Proof.
  destruct (lstrip_by_suffix p s) as [k Hk]. intros Hlast.
  rewrite Hk, last_app, Hlast. done.
Qed.

Lemma lstrip_by_all p s : forallb p s = true -> lstrip_by p s = [].
Proof.
  intros H. rewrite <- (right_id_L [] (++) s) at 1. by rewrite lstrip_by_app.
Qed.

Lemma lstrip_by_snoc p r c :
  p c = true ->
  lstrip_by p (r ++ [c]) = if forallb p r then [] else lstrip_by p r ++ [c].
Proof.
  intros Hc. induction r as [|a r IH]; simpl; [by rewrite Hc|].
  destruct (p a); simpl; [done|done].
Qed.

Lemma rstrip_by_last p s c : last (rstrip_by p s) = Some c -> p c = false.
Proof. unfold rstrip_by. rewrite last_reverse. apply lstrip_by_head. Qed.

Lemma strip_by_ends p s : ends_outside p (strip_by p s).
Proof.
  unfold ends_outside, strip_by. intros c [Hhead|Hlast].
  - by apply lstrip_by_head in Hhead.
  - by apply lstrip_by_last, rstrip_by_last in Hlast.
Qed.

(** A leading character of the class does not change the stripped string. *)
Lemma strip_by_cons p c s : p c = true -> strip_by p (c :: s) = strip_by p s.
Proof.
  intros Hc. unfold strip_by, rstrip_by. rewrite reverse_cons, lstrip_by_snoc by done.
  destruct (forallb p (reverse s)) eqn:Hall.
  - by rewrite (lstrip_by_all p (reverse s)).
  - rewrite reverse_app. simpl. by rewrite Hc.
Qed.

End StripFacts.

(** ** Further properties of the parser *)

Section ParserOutcomes.

Import CustomOutputParser.

(** The three ways through [parse]. *)
Lemma parse_cases (raw : str) :
  (contains (py "Final Answer:") raw = true /\
   exists i,
     last_occurrence (py "Final Answer:") raw i /\
     parse raw =
       Return (Finish (mkFinish
         {[ py "output" := strip (drop (i + length (py "Final Answer:")) raw) ]} raw))) \/
  (contains (py "Final Answer:") raw = false /\ is_Some (search regex raw) /\
   exists X Y,
     parse raw =
       Return (Action (mkAction
         (strip X)
         (strip_chars [DQUOTE] (strip_chars (py " ") (lstrip_by isspace Y)))
         raw))) \/
  (contains (py "Final Answer:") raw = false /\ search regex raw = None /\
   parse raw = Raise (ValueError (py "Could not parse LLM output: `" ++ raw ++ py "`"))).
Proof.
  destruct (contains (py "Final Answer:") raw) eqn:Hc.
  - left. split; [done|].
    destruct (last_occurrence_exists (py "Final Answer:") raw) as [i Hi];
      [by vm_compute | done |].
    exists i. split; [done|]. unfold parse. rewrite Hc.
    pose proof (split_final_last _ _ Hi) as Hs.
    destruct (split (py "Final Answer:") raw) as [pieces|e]; [|done].
    cbn [mbind result_bind] in Hs |- *. by rewrite Hs.
  - right. destruct (search regex raw) as [res|] eqn:Hsearch.
    + left. split_and!; [done|by eexists|].
      destruct (first_shape_exists raw (search_Some_lang _ _ _ Hsearch))
        as (pre & m1 & X & m2 & Y & Hshape & Hfirst).
      exists X, Y. by apply (parse_first_shape raw pre m1 X m2 Y).
    + right. split_and!; [done..|]. unfold parse. by rewrite Hc, Hsearch.
Qed.

(** [parse] ends in one of three ways and in no other: a finish when the
    marker occurs, an action when it does not and the pattern matches, the
    [ValueError] with the completion in its message otherwise.  The index
    [[-1]] and the two group lookups never fail, and a returned step logs the
    completion unchanged. *)
Theorem parse_outcomes (rawText : str) :
  (exists f, parse rawText = Return (Finish f) /\ finish_log f = rawText /\
             contains (py "Final Answer:") rawText = true) \/
  (exists a, parse rawText = Return (Action a) /\ log a = rawText /\
             contains (py "Final Answer:") rawText = false /\
             is_Some (search regex rawText)) \/
  (parse rawText
   = Raise (ValueError (py "Could not parse LLM output: `" ++ rawText ++ py "`")) /\
   contains (py "Final Answer:") rawText = false /\ search regex rawText = None).
Proof.
  destruct (parse_cases rawText)
    as [(Hc & i & Hi & ->) | [(Hc & Hs & X & Y & ->) | (Hc & Hs & ->)]].
  - left. by eexists.
  - right. left. by eexists.
  - right. by right.
Qed.

(** The tool name of a returned action neither starts nor ends with
    whitespace, its tool input neither starts nor ends with a double quote,
    and the output of a returned finish, the only entry of its return values,
    neither starts nor ends with whitespace. *)
Theorem parse_results_trimmed (rawText : str) (step : agent_step) :
  parse rawText = Return step ->
  match step with
  | Action a =>
      ends_outside isspace (tool a) /\
      ends_outside (fun c => c =? DQUOTE) (tool_input a)
  | Finish f =>
      exists output,
        return_values f = {[ py "output" := output ]} /\ ends_outside isspace output
  end.
Proof.
  destruct (parse_cases rawText)
    as [(Hc & i & Hi & ->) | [(Hc & Hs & X & Y & ->) | (Hc & Hs & ->)]]; [| |done].
  - intros [= <-]. eexists. split; [done|]. apply strip_by_ends.
  - intros [= <-]. cbn [tool tool_input]. split; [apply strip_by_ends|].
    intros c Hc'. pose proof (strip_by_ends _ _ c Hc') as Hout.
    simpl in Hout. by rewrite orb_false_r in Hout.
Qed.

Lemma parse_results_trimmed_witness :
  let rawText :=
    py "Action:   search  " ++ [NL] ++ py "Action Input: " ++ [DQUOTE] ++ py "shirts" ++ [DQUOTE] in
  let step := Action (mkAction (py "search") (py "shirts") rawText) in
  parse rawText = Return step /\
  ends_outside isspace (py "search") /\
  ends_outside (fun c => c =? DQUOTE) (py "shirts").
Proof.
  intros rawText step.
  assert (parse rawText = Return step) as Hparse by (by vm_compute).
  split; [exact Hparse|].
  exact (parse_results_trimmed rawText step Hparse).
Defined.

Lemma match_here_INPUT_MARK_head (c : N) (s : str) :
  c <> NL -> match_here INPUT_MARK (c :: s) = None.
Proof.
  intros Hc. destruct (match_here INPUT_MARK (c :: s)) as [res|] eqn:E; [|done].
  exfalso.
  assert (is_Some (match_here INPUT_MARK (c :: s))) as (w & t & Hs & Hw)%match_here_is_Some
    by (by eexists).
  apply lang_INPUT_MARK in Hw as (w1 & d & w2 & w3 & e & w4 & -> & _).
  simpl in Hs. by injection Hs.
Qed.

Lemma drop_inside (X r : str) (j : nat) :
  (j < length X)%nat -> exists c s, drop j (X ++ r) = c :: s /\ c ∈ X.
Proof.
  intros Hj. destruct (lookup_lt_is_Some_2 X j Hj) as [c Hc].
  exists c, (drop (S j) (X ++ r)). split.
  - apply drop_S. by apply lookup_app_l_Some.
  - by apply list_elem_of_lookup_2 in Hc.
Qed.

(** The completion in the format that the template asks for is parsed back:
    a tool name without a newline is recovered, stripped of whitespace,
    whatever the input text; the input text loses its leading whitespace,
    then its leading and trailing spaces, then its leading and trailing
    double quotes. *)
Theorem parse_action_text (tool_name tool_in : str) :
  NL ∉ tool_name ->
  contains (py "Final Answer:") (action_text tool_name tool_in) = false ->
  parse (action_text tool_name tool_in) =
    Return (Action (mkAction
      (strip tool_name)
      (strip_chars [DQUOTE] (strip_chars (py " ") (lstrip_by isspace tool_in)))
      (action_text tool_name tool_in))).
Proof.
  intros Hnl Hc.
  assert (action_shape (action_text tool_name tool_in) [] (py "Action:") (32 :: tool_name)
            (NL :: py "Action Input:") (32 :: tool_in)) as Hshape.
  { split_and!; [reflexivity| |].
    - apply lang_ACTION_MARK. by exists [], [], [].
    - apply lang_INPUT_MARK. by exists (py " "), [], [], [], [], []. }
  assert (first_shape (action_text tool_name tool_in) [] (32 :: tool_name)) as Hfirst.
  { apply (first_shape_intro _ _ _ _ _ _ Hshape); [simpl; lia|].
    intros j Hj. destruct (drop_inside _ ((NL :: py "Action Input:") ++ 32 :: tool_in) j Hj)
      as (c & s & -> & Hin).
    apply match_here_INPUT_MARK_head. intros ->.
    apply elem_of_cons in Hin as [?|?]; done. }
  rewrite (parse_first_shape _ _ _ _ _ _ Hc Hshape Hfirst).
  unfold strip. rewrite (strip_by_cons isspace 32) by done.
  by change (lstrip_by isspace (32 :: tool_in)) with (lstrip_by isspace tool_in).
Qed.

Lemma parse_action_text_witness :
  (NL ∉ py "search") /\
  contains (py "Final Answer:") (action_text (py "search") (py "shirts")) = false /\
  parse (action_text (py "search") (py "shirts")) =
    Return (Action (mkAction
      (strip (py "search"))
      (strip_chars [DQUOTE] (strip_chars (py " ") (lstrip_by isspace (py "shirts"))))
      (action_text (py "search") (py "shirts")))).
Proof.
  assert (NL ∉ py "search") as Hnl.
  { intros H. repeat (apply elem_of_cons in H as [?|H]; [done|]). by apply elem_of_nil in H. }
  split_and!; [exact Hnl|reflexivity|].
  exact (parse_action_text (py "search") (py "shirts") Hnl eq_refl).
Defined.

End ParserOutcomes.

(** ** Further properties of the prompt template *)

Section PromptFacts.

Import CustomPromptTemplate.

Lemma format_raises_with_getter_aux
    (tools_getter : str -> result (list Tool)) (query : str) (steps : transcript) (e : exn) :
  tools_getter query = Raise e -> format tools_getter query steps = Raise e.
Proof.
  intros Hg. unfold format, format_kwargs, getitem.
  rewrite lookup_insert_ne by done. rewrite lookup_singleton_eq.
  cbn [mbind result_bind]. by rewrite Hg.
Qed.

(** [format] fails exactly when the tools getter fails, and then with the
    getter's exception: the template's four fields are all bound and its
    braces balanced, so [template.format] itself raises nothing. *)
Theorem format_raises_with_getter
    (tools_getter : str -> result (list Tool)) (query : str) (steps : transcript) (e : exn) :
  format tools_getter query steps = Raise e <-> tools_getter query = Raise e.
Proof.
  destruct (tools_getter query) as [tools|e'] eqn:Hg.
  - rewrite (format_Return _ _ _ _ Hg). split; intros H; discriminate H.
  - rewrite (format_raises_with_getter_aux _ _ _ _ Hg). split; intros [= ->]; done.
Qed.

Lemma format_app
    (tools_getter : str -> result (list Tool)) (query : str) (steps more : transcript)
    (prompt : str) :
  format tools_getter query steps = Return prompt ->
  format tools_getter query (steps ++ more)
  = Return (prompt ++ concat (scratchpad_entry <$> more)).
Proof.
  intros Hprompt. destruct (tools_getter query) as [tools|e] eqn:Hg.
  - rewrite (format_Return _ _ _ _ Hg) in Hprompt. injection Hprompt as <-.
    rewrite (format_Return _ _ _ _ Hg). unfold rendered.
    rewrite fmap_app, concat_app. by rewrite <- !(assoc_L (++)).
  - by rewrite (format_raises_with_getter_aux _ _ steps _ Hg) in Hprompt.
Qed.

(** Appending entries to the transcript appends their text to the prompt:
    the prompt of an iteration is a prefix of the prompt of every later one. *)
Theorem format_extends
    (tools_getter : str -> result (list Tool)) (query : str) (steps more : transcript)
    (prompt : str) :
  format tools_getter query steps = Return prompt ->
  format tools_getter query (steps ++ more)
  = Return (prompt ++ concat (scratchpad_entry <$> more)).
Proof. apply format_app. Qed.

End PromptFacts.

Lemma format_extends_witness :
  let steps := [(mkAction (py "search") (py "shirts") (py "Action: search"), py "3 shirts")] in
  let more := [(mkAction (py "search") (py "hats") (py "Action: search"), py "no hats")] in
  CustomPromptTemplate.format example_getter (py "What can I buy?") steps
  = Return (rendered example_tools (py "What can I buy?") steps) /\
  CustomPromptTemplate.format example_getter (py "What can I buy?") (steps ++ more)
  = Return (rendered example_tools (py "What can I buy?") steps
            ++ concat (scratchpad_entry <$> more)).
Proof.
  intros steps more.
  assert (CustomPromptTemplate.format example_getter (py "What can I buy?") steps
          = Return (rendered example_tools (py "What can I buy?") steps)) as Hprompt
    by (by apply format_Return).
  split; [exact Hprompt|].
  exact (format_extends example_getter (py "What can I buy?") steps more _ Hprompt).
Defined.

(** ** Further properties of tool selection *)

Section ToolkitFacts.

Variable distance : str -> str -> N.
Variable from_llm_and_ai_plugin : AIPlugin -> NLAToolkit.

Implicit Types (plugins : list AIPlugin) (d : gmap str NLAToolkit) (key : str).

Lemma foldl_insert_toolkit_last plugins d key :
  foldl (insert_toolkit from_llm_and_ai_plugin) d plugins !! key
  = match last (filter (fun p => name_for_model p = key) plugins) with
    | Some p => Some (from_llm_and_ai_plugin p)
    | None => d !! key
    end.
Proof.
  revert d. induction plugins as [|p plugins IH]; intros d; simpl; [done|].
  rewrite IH, filter_cons. case_decide as Hname.
  - rewrite last_cons. destruct (last (filter _ plugins)); [done|].
    unfold insert_toolkit. by rewrite Hname, lookup_insert_eq.
  - destruct (last (filter _ plugins)); [done|].
    unfold insert_toolkit. by rewrite lookup_insert_ne.
Qed.

(** The dictionary holds, under each name, the toolkit of the last plugin of
    that name, and nothing under a name that no plugin has: of two plugins
    with one name the earlier one loses its toolkit. *)
Theorem toolkits_dict_lookup plugins key :
  toolkits_dict from_llm_and_ai_plugin plugins !! key
  = from_llm_and_ai_plugin <$> last (filter (fun p => name_for_model p = key) plugins).
Proof.
  unfold toolkits_dict. rewrite foldl_insert_toolkit_last.
  by destruct (last (filter _ plugins)).
Qed.

Lemma toolkit_for_plugin plugins doc :
  doc ∈ docs plugins ->
  exists p,
    p ∈ plugins /\
    toolkit_for from_llm_and_ai_plugin plugins doc = from_llm_and_ai_plugin p.
Proof.
  intros (p0 & -> & Hp0)%list_elem_of_fmap. unfold toolkit_for, toolkits_dict. cbn [metadata].
  rewrite lookup_singleton_eq. cbn [mbind option_bind].
  rewrite foldl_insert_toolkit_last.
  destruct (last (filter (fun p => name_for_model p = name_for_model p0) plugins))
    as [p|] eqn:Hlast.
  - exists p. split; [|done].
    apply last_Some_elem_of, list_elem_of_filter in Hlast. by destruct Hlast.
  - apply last_None in Hlast. exfalso.
    by apply (filter_nil_not_elem_of _ _ p0 Hlast).
Qed.

(** [get_tools] never fails, however many plugins there are: each document
    that the retriever hands back was built from a plugin, so its
    [plugin_name] is in its metadata and in the dictionary.  Every tool
    returned belongs to the toolkit of some plugin. *)
Theorem get_tools_returns plugins (query : str) :
  exists tools,
    get_tools distance from_llm_and_ai_plugin plugins query = Return tools /\
    forall t, t ∈ tools ->
              exists p, p ∈ plugins /\ t ∈ nla_tools (from_llm_and_ai_plugin p).
Proof.
  unfold get_tools, SimilarityIndex.get_relevant_documents, vector_store,
    SimilarityIndex.build.
  set (found := SimilarityIndex.query distance (docs plugins) query SimilarityIndex.DEFAULT_K).
  assert (forall doc, doc ∈ found -> doc ∈ docs plugins) as Hfound.
  { intros doc Hdoc. unfold found, SimilarityIndex.query in Hdoc.
    apply subseteq_take in Hdoc. by rewrite merge_sort_Permutation in Hdoc. }
  rewrite (comprehension_Return _ (toolkit_for from_llm_and_ai_plugin plugins)).
  - cbn [mbind result_bind]. eexists. split; [done|].
    intros t. rewrite foldl_extend. simpl.
    intros (tk & Ht & (doc & -> & Hdoc)%list_elem_of_fmap)%list_elem_of_bind.
    destruct (toolkit_for_plugin plugins doc (Hfound _ Hdoc)) as (p & Hp & Htk).
    exists p. split; [done|]. by rewrite <- Htk.
  - intros doc Hdoc. apply toolkit_lookup. by apply Hfound.
Qed.

End ToolkitFacts.

(** ** Further properties of [generate_response] *)

Section FetchFailure.

Variable from_url : str -> result AIPlugin.
Variable from_llm_and_ai_plugin : str -> AIPlugin -> NLAToolkit.
Variable embedding_distance : str -> str -> str -> N.
Variable llm : str -> nat -> str -> result str.
Variable run_tool : Tool -> str -> result str.
Variable return_stopped_response : transcript -> str.

Lemma comprehension_Raise {A B} (f : A -> result B) (l1 : list A) (x : A) (l2 : list A) e :
  (forall y, y ∈ l1 -> exists b, f y = Return b) -> f x = Raise e ->
  comprehension f (l1 ++ x :: l2) = Raise e.
Proof.
  intros Hok Hx. induction l1 as [|y l1 IH]; simpl.
  - by rewrite Hx.
  - destruct (Hok y) as [b ->]; [by left|]. cbn [mbind result_bind].
    rewrite IH; [done|]. intros z Hz. apply Hok. by right.
Qed.

(** A manifest that cannot be fetched fails the whole call: with the
    manifests before it fetched and this one failing, [generate_response]
    raises the fetch's exception, whatever the key, the query and the other
    services.  No partial catalog is used. *)
Theorem generate_response_fetch_failure
    (openai_api_key user_query : str) (fetched : list str) (failing : str)
    (remaining : list str) (e : exn) :
  urls = fetched ++ failing :: remaining ->
  (forall url, url ∈ fetched -> exists plugin, from_url url = Return plugin) ->
  from_url failing = Raise e ->
  generate_response from_url from_llm_and_ai_plugin embedding_distance llm run_tool
    return_stopped_response openai_api_key user_query = Raise e.
Proof.
  intros Hurls Hok Hfail. unfold generate_response.
  by rewrite Hurls, (comprehension_Raise _ _ _ _ e Hok Hfail).
Qed.

End FetchFailure.

Lemma generate_response_fetch_failure_witness :
  let fetched := [py "https://api.speak.com/.well-known/ai-plugin.json"] in
  let failing := py "https://www.klarna.com/.well-known/ai-plugin.json" in
  let remaining := [py "https://schooldigger.com/.well-known/ai-plugin.json"] in
  urls = fetched ++ failing :: remaining /\
  (forall url, url ∈ fetched -> exists plugin, example_failing_from_url url = Return plugin) /\
  example_failing_from_url failing = Raise (ServiceError (py "unreachable")) /\
  generate_response example_failing_from_url (fun _ => example_toolkit)
    (fun _ => example_distance) (fun _ => example_llm) example_run_tool example_stopped
    (py "sk-123") (py "What shirts can I buy?")
  = Raise (ServiceError (py "unreachable")).
Proof.
  intros fetched failing remaining.
  assert (forall url, url ∈ fetched ->
                      exists plugin, example_failing_from_url url = Return plugin) as Hok.
  { intros url ->%list_elem_of_singleton. by eexists. }
  split_and!; [reflexivity|exact Hok|reflexivity|].
  exact (generate_response_fetch_failure example_failing_from_url (fun _ => example_toolkit)
           (fun _ => example_distance) (fun _ => example_llm) example_run_tool
           example_stopped (py "sk-123") (py "What shirts can I buy?")
           fetched failing remaining _ eq_refl Hok eq_refl).
Defined.

(** ** The parser and the prompt together *)

Section ParserAndPrompt.

Import CustomOutputParser CustomPromptTemplate.

Lemma contains_infix (sub k1 mid k2 : str) :
  contains sub mid = true -> contains sub (k1 ++ mid ++ k2) = true.
Proof.
  intros [i Hi%occurs_at_split]%contains_occurs.
  remember (take i mid) as a eqn:Ha. remember (drop (i + length sub) mid) as b eqn:Hb.
  clear Ha Hb. subst mid.
  replace (k1 ++ (a ++ sub ++ b) ++ k2) with ((k1 ++ a) ++ sub ++ (b ++ k2))
    by (by rewrite <- !(assoc_L (++))).
  apply contains_app.
Qed.

Lemma strip_by_infix p (s : str) : exists k1 k2, s = k1 ++ strip_by p s ++ k2.
Proof.
  unfold strip_by.
  destruct (lstrip_by_suffix p (rstrip_by p s)) as [k1 Hk1].
  destruct (lstrip_by_suffix p (reverse s)) as [k Hk].
  exists k1, (reverse k). rewrite (assoc_L (++)), <- Hk1. unfold rstrip_by.
  by rewrite <- reverse_app, <- Hk, reverse_involutive.
Qed.

(** The answer of a returned finish never contains the marker again: it is
    cut after the last occurrence. *)
Theorem parse_finish_without_marker (rawText : str) (f : AgentFinish) (output : str) :
  parse rawText = Return (Finish f) ->
  return_values f !! py "output" = Some output ->
  contains (py "Final Answer:") output = false.
Proof.
  destruct (parse_cases rawText)
    as [(Hc & i & [Hi Hmax] & ->) | [(Hc & Hs & X & Y & ->) | (Hc & Hs & ->)]]; [|done..].
  intros [= <-]. cbn [return_values]. rewrite lookup_singleton_eq. intros [= <-].
  set (piece := drop (i + length (py "Final Answer:")) rawText).
  destruct (contains (py "Final Answer:") (strip piece)) eqn:Hout; [|done]. exfalso.
  destruct (strip_by_infix isspace piece) as (k1 & k2 & Hpiece).
  apply (contains_infix _ k1 _ k2) in Hout. fold strip in Hpiece. rewrite <- Hpiece in Hout.
  apply contains_occurs in Hout as [m Hm]. apply occurs_at_drop, Hmax in Hm.
  simpl in Hm. lia.
Qed.

Lemma parse_finish_without_marker_witness :
  let rawText := py "Final Answer: 41 Final Answer: 42" in
  let f := mkFinish {[ py "output" := py "42" ]} rawText in
  parse rawText = Return (Finish f) /\
  return_values f !! py "output" = Some (py "42") /\
  contains (py "Final Answer:") (py "42") = false.
Proof.
  intros rawText f.
  assert (parse rawText = Return (Finish f)) as Hparse by (by vm_compute).
  assert (return_values f !! py "output" = Some (py "42")) as Hout by (by vm_compute).
  split_and!; [exact Hparse|exact Hout|].
  exact (parse_finish_without_marker rawText f (py "42") Hparse Hout).
Defined.

(** The transcript replays the model's own words: after an action parsed
    from a completion, the next prompt is the previous one followed by that
    completion, unchanged, then the observation and the cue for the next
    thought. *)
Theorem prompt_replays_completion
    (tools_getter : str -> result (list Tool)) (query : str) (steps : transcript)
    (prompt completion observation : str) (a : AgentAction) :
  format tools_getter query steps = Return prompt ->
  parse completion = Return (Action a) ->
  format tools_getter query (steps ++ [(a, observation)])
  = Return (prompt ++ completion ++ [NL] ++ py "Observation: " ++ observation
            ++ [NL] ++ py "Thought: ").
Proof.
  intros Hprompt Hparse. rewrite (format_app _ _ _ _ _ Hprompt).
  destruct (parse_cases completion)
    as [(Hc & i & Hi & Heq) | [(Hc & Hs & X & Y & Heq) | (Hc & Hs & Heq)]];
    rewrite Heq in Hparse; [done| |done].
  injection Hparse as <-. simpl. unfold scratchpad_entry. cbn [fst snd log].
  by rewrite ?(right_id_L [] (++)), <- ?(assoc_L (++)).
Qed.

Lemma prompt_replays_completion_witness :
  let query := py "What can I buy?" in
  let completion := action_text (py "search") (py "shirts") in
  let a := mkAction (py "search") (py "shirts") completion in
  format example_getter query [] = Return (rendered example_tools query []) /\
  parse completion = Return (Action a) /\
  format example_getter query ([] ++ [(a, py "3 shirts")])
  = Return (rendered example_tools query [] ++ completion ++ [NL] ++ py "Observation: "
            ++ py "3 shirts" ++ [NL] ++ py "Thought: ").
Proof.
  intros query completion a.
  assert (format example_getter query [] = Return (rendered example_tools query []))
    as Hprompt by (by apply format_Return).
  assert (parse completion = Return (Action a)) as Hparse by (by vm_compute).
  split_and!; [exact Hprompt|exact Hparse|].
  exact (prompt_replays_completion example_getter query [] _ completion (py "3 shirts") a
           Hprompt Hparse).
Defined.

End ParserAndPrompt.

Lemma parse_final_round_trip_witness :
  let prefix := py "Thought: I now know the final answer" ++ [NL] in
  let answer := py " three shirts  " in
  contains (py "Final Answer:") answer = false /\
  CustomOutputParser.parse (prefix ++ py "Final Answer:" ++ answer) =
    Return (Finish (mkFinish {[ py "output" := strip answer ]}
                      (prefix ++ py "Final Answer:" ++ answer))).
Proof.
  intros prefix answer. split; [reflexivity|].
  exact (parse_final_round_trip prefix answer eq_refl).
Defined.
